(** * A shallow embedding of the mbed quadrature encoder interface (QEI)

    The driver of [QEI.h] / [QEI.cpp] decodes the two channels of a
    quadrature encoder into a signed pulse count, counts index pulses and
    estimates the speed from the time between pulses.

    The object is a record of its member variables; each member function is
    a function on that record.  What the hardware supplies (the level of a
    pin, the value of the microsecond timer) is an argument of the function
    whose body reads it.  [int] and [unsigned int] are 32-bit and modelled
    in [Z] with the wrap-around written out; [float] is IEEE 754 binary32,
    modelled with the radix-2 specification floats of the library. *)

From Stdlib Require Import ZArith Bool List Lia.
From Stdlib Require Import Floats.SpecFloat.
Import ListNotations.

Local Open Scope Z_scope.
Local Open Scope bool_scope.

(** ** Machine integers *)

(** Arithmetic on [unsigned int] is modulo 2^32.  Arithmetic on [int] is
    taken to wrap in two's complement, as it does on the target; the
    theorems also give the exact result where no overflow occurs. *)
Module Int32.

Definition modulus : Z := 4294967296.
Definition INT_MAX : Z := 2147483647.
Definition INT_MIN : Z := -2147483648.
Definition UINT_MAX : Z := 4294967295.

(** Conversion to [unsigned int]: reduction modulo 2^32. *)
Definition uint32 (z : Z) : Z := z mod modulus.

(** Conversion to [int]: the two's complement representative. *)
Definition sint32 (z : Z) : Z := (z + 2147483648) mod modulus - 2147483648.

Definition int_range (z : Z) : Prop := INT_MIN <= z <= INT_MAX.
Definition uint_range (z : Z) : Prop := 0 <= z <= UINT_MAX.

End Int32.
Import Int32.

(** ** Single precision floats *)

Module Float32.

Definition prec : Z := 24.
Definition emax : Z := 128.

Definition float : Type := spec_float.

Definition fmul : float -> float -> float := SFmul prec emax.
Definition fdiv : float -> float -> float := SFdiv prec emax.
Definition fabs : float -> float := SFabs.
Definition fltb : float -> float -> bool := SFltb.
Definition valid (x : float) : bool := valid_binary prec emax x.

(** [(float) n] for an [int] n: rounded to nearest, ties to even. *)
Definition float_of_int (n : Z) : float := binary_normalize prec emax n 0 false.

(** The literals of the source. *)
Definition f_0 : float := S754_zero false.                 (* 0 *)
Definition f_0_5 : float := S754_finite false 8388608 (-24). (* 0.5f *)
Definition f_1 : float := S754_finite false 8388608 (-23).   (* 1.0 *)
Definition f_1000000 : float := S754_finite false 16000000 (-4). (* 1000000.0f *)

Definition is_finite (x : float) : bool :=
  match x with
  | S754_zero _ | S754_finite _ _ _ => true
  | _ => false
  end.

Definition is_zero (x : float) : bool :=
  match x with
  | S754_zero _ => true
  | _ => false
  end.

(** Half of [m * 2^-149], rounded to nearest with ties to even: what
    halving gives at the least exponent, where the result cannot gain a
    bit of precision. *)
Definition half_min_exp (s : bool) (m : positive) : float :=
  match m with
  | xH => S754_zero s
  | xO p => S754_finite s p (-149)
  | xI p => S754_finite s (if Z.even (Zpos p) then p else Pos.succ p) (-149)
  end.

(** Values used in the examples. *)
Definition f_500 : float := S754_finite false 16384000 (-15).
Definition f_1000 : float := S754_finite false 16384000 (-14).
Definition f_max : float := S754_finite false 16777215 104.   (* FLT_MAX *)
Definition f_inf : float := S754_infinity false.

End Float32.
Import Float32.

(** ** The object *)

(** [QEI::Encoding] *)
Inductive Encoding : Type := X2_ENCODING | X4_ENCODING.

(** The macros of [QEI.h]. *)
Definition PREV_MASK : Z := 1.
Definition CURR_MASK : Z := 2.
Definition INVALID : Z := 3.

(** The member variables of [class QEI] that the member functions use.
    The pin objects and the timer belong to the platform; [_encode_type] is
    declared and never used.  [_fSpeed] is assigned and returned by
    [getSpeed]; its declaration is not in [QEI.h] (the local of that name
    is commented out), and it is kept here as a member. *)
Record QEI : Type := mkQEI {
  _encoding : Encoding;
  _prevState : Z;
  _currState : Z;
  _pulses : Z;
  _revolutions : Z;
  _fSpeedFactor : float;
  _fPositionFactor : float;
  _nSpeedLastTimer : Z;
  _nSpeedTimeoutMax : Z;
  _nSpeedTimeoutCount : Z;
  _nSpeedAvrTimeSum : Z;
  _nSpeedAvrTimeCount : Z;
  _fLastSpeed : float;
  _fSpeed : float
}.

(** Assignments to one member. *)
Definition set_prevState (v : Z) (q : QEI) : QEI :=
  mkQEI (_encoding q) v (_currState q) (_pulses q) (_revolutions q)
        (_fSpeedFactor q) (_fPositionFactor q) (_nSpeedLastTimer q)
        (_nSpeedTimeoutMax q) (_nSpeedTimeoutCount q) (_nSpeedAvrTimeSum q)
        (_nSpeedAvrTimeCount q) (_fLastSpeed q) (_fSpeed q).

Definition set_currState (v : Z) (q : QEI) : QEI :=
  mkQEI (_encoding q) (_prevState q) v (_pulses q) (_revolutions q)
        (_fSpeedFactor q) (_fPositionFactor q) (_nSpeedLastTimer q)
        (_nSpeedTimeoutMax q) (_nSpeedTimeoutCount q) (_nSpeedAvrTimeSum q)
        (_nSpeedAvrTimeCount q) (_fLastSpeed q) (_fSpeed q).

Definition set_pulses (v : Z) (q : QEI) : QEI :=
  mkQEI (_encoding q) (_prevState q) (_currState q) v (_revolutions q)
        (_fSpeedFactor q) (_fPositionFactor q) (_nSpeedLastTimer q)
        (_nSpeedTimeoutMax q) (_nSpeedTimeoutCount q) (_nSpeedAvrTimeSum q)
        (_nSpeedAvrTimeCount q) (_fLastSpeed q) (_fSpeed q).

Definition set_revolutions (v : Z) (q : QEI) : QEI :=
  mkQEI (_encoding q) (_prevState q) (_currState q) (_pulses q) v
        (_fSpeedFactor q) (_fPositionFactor q) (_nSpeedLastTimer q)
        (_nSpeedTimeoutMax q) (_nSpeedTimeoutCount q) (_nSpeedAvrTimeSum q)
        (_nSpeedAvrTimeCount q) (_fLastSpeed q) (_fSpeed q).

Definition set_fSpeedFactor (v : float) (q : QEI) : QEI :=
  mkQEI (_encoding q) (_prevState q) (_currState q) (_pulses q) (_revolutions q)
        v (_fPositionFactor q) (_nSpeedLastTimer q)
        (_nSpeedTimeoutMax q) (_nSpeedTimeoutCount q) (_nSpeedAvrTimeSum q)
        (_nSpeedAvrTimeCount q) (_fLastSpeed q) (_fSpeed q).

Definition set_fPositionFactor (v : float) (q : QEI) : QEI :=
  mkQEI (_encoding q) (_prevState q) (_currState q) (_pulses q) (_revolutions q)
        (_fSpeedFactor q) v (_nSpeedLastTimer q)
        (_nSpeedTimeoutMax q) (_nSpeedTimeoutCount q) (_nSpeedAvrTimeSum q)
        (_nSpeedAvrTimeCount q) (_fLastSpeed q) (_fSpeed q).

Definition set_nSpeedLastTimer (v : Z) (q : QEI) : QEI :=
  mkQEI (_encoding q) (_prevState q) (_currState q) (_pulses q) (_revolutions q)
        (_fSpeedFactor q) (_fPositionFactor q) v
        (_nSpeedTimeoutMax q) (_nSpeedTimeoutCount q) (_nSpeedAvrTimeSum q)
        (_nSpeedAvrTimeCount q) (_fLastSpeed q) (_fSpeed q).

Definition set_nSpeedTimeoutCount (v : Z) (q : QEI) : QEI :=
  mkQEI (_encoding q) (_prevState q) (_currState q) (_pulses q) (_revolutions q)
        (_fSpeedFactor q) (_fPositionFactor q) (_nSpeedLastTimer q)
        (_nSpeedTimeoutMax q) v (_nSpeedAvrTimeSum q)
        (_nSpeedAvrTimeCount q) (_fLastSpeed q) (_fSpeed q).

Definition set_nSpeedAvrTimeSum (v : Z) (q : QEI) : QEI :=
  mkQEI (_encoding q) (_prevState q) (_currState q) (_pulses q) (_revolutions q)
        (_fSpeedFactor q) (_fPositionFactor q) (_nSpeedLastTimer q)
        (_nSpeedTimeoutMax q) (_nSpeedTimeoutCount q) v
        (_nSpeedAvrTimeCount q) (_fLastSpeed q) (_fSpeed q).

Definition set_nSpeedAvrTimeCount (v : Z) (q : QEI) : QEI :=
  mkQEI (_encoding q) (_prevState q) (_currState q) (_pulses q) (_revolutions q)
        (_fSpeedFactor q) (_fPositionFactor q) (_nSpeedLastTimer q)
        (_nSpeedTimeoutMax q) (_nSpeedTimeoutCount q) (_nSpeedAvrTimeSum q)
        v (_fLastSpeed q) (_fSpeed q).

Definition set_fLastSpeed (v : float) (q : QEI) : QEI :=
  mkQEI (_encoding q) (_prevState q) (_currState q) (_pulses q) (_revolutions q)
        (_fSpeedFactor q) (_fPositionFactor q) (_nSpeedLastTimer q)
        (_nSpeedTimeoutMax q) (_nSpeedTimeoutCount q) (_nSpeedAvrTimeSum q)
        (_nSpeedAvrTimeCount q) v (_fSpeed q).

Definition set_fSpeed (v : float) (q : QEI) : QEI :=
  mkQEI (_encoding q) (_prevState q) (_currState q) (_pulses q) (_revolutions q)
        (_fSpeedFactor q) (_fPositionFactor q) (_nSpeedLastTimer q)
        (_nSpeedTimeoutMax q) (_nSpeedTimeoutCount q) (_nSpeedAvrTimeSum q)
        (_nSpeedAvrTimeCount q) (_fLastSpeed q) v.

(** ** The member functions *)

(** The 2-bit state [(chanA << 1) | chanB] of two pin levels; a pin reads
    as 0 or 1. *)
Definition state_of (chanA chanB : bool) : Z :=
  Z.lor (Z.shiftl (Z.b2z chanA) 1) (Z.b2z chanB).

(** [QEI::QEI].  [chanA] and [chanB] are the levels read from the pins;
    [fSpeed0] is the indeterminate initial content of [_fSpeed], which the
    constructor does not assign. *)
Definition QEI_ctor (chanA chanB : bool) (encoding : Encoding) (fSpeed0 : float) : QEI :=
  let currState := state_of chanA chanB in
  {| _encoding := encoding;
     _prevState := currState;
     _currState := currState;
     _pulses := 0;
     _revolutions := 0;
     _fSpeedFactor := f_1;
     _fPositionFactor := f_1;
     _nSpeedLastTimer := 0;
     _nSpeedTimeoutMax := 10;
     _nSpeedTimeoutCount := 0;
     _nSpeedAvrTimeSum := 0;
     _nSpeedAvrTimeCount := -1;
     _fLastSpeed := f_0;
     _fSpeed := fSpeed0 |}.

(** [QEI::reset] *)
Definition reset (q : QEI) : QEI :=
  let q := set_pulses 0 q in
  set_revolutions 0 q.

(** [QEI::read] *)
Definition read (q : QEI) : Z * QEI := (_pulses q, q).

(** [QEI::write] *)
Definition write (pulses : Z) (q : QEI) : QEI := set_pulses pulses q.

(** [QEI::setSpeedFactor] *)
Definition setSpeedFactor (fSpeedFactor : float) (q : QEI) : QEI :=
  set_fSpeedFactor fSpeedFactor q.

(** [QEI::getSpeed].  The window is read and zeroed with interrupts
    disabled, so no call of [encode] falls between the four assignments. *)
Definition getSpeed (q : QEI) : float * QEI :=
  let avrTimeSum := _nSpeedAvrTimeSum q in
  let avrTimeCount := _nSpeedAvrTimeCount q in
  let q := set_nSpeedAvrTimeSum 0 q in
  let q := set_nSpeedAvrTimeCount 0 q in
  let q :=
    if avrTimeCount =? 0 then
      (* _nSpeedTimeoutCount++ > _nSpeedTimeoutMax: the comparison sees the
         value before the increment *)
      let old := _nSpeedTimeoutCount q in
      let q := set_nSpeedTimeoutCount (uint32 (old + 1)) q in
      let q :=
        if old >? _nSpeedTimeoutMax q
        then set_fLastSpeed (fmul (_fLastSpeed q) f_0_5) q
        else q in
      set_fSpeed (_fLastSpeed q) q
    else if (avrTimeCount <? 0) || (avrTimeSum =? 0) then
      let q := set_fSpeed f_0 q in
      set_nSpeedTimeoutCount 0 q
    else
      let q :=
        set_fSpeed
          (fdiv (fmul f_1000000 (_fSpeedFactor q))
                (fdiv (float_of_int avrTimeSum) (float_of_int avrTimeCount)))
          q in
      set_nSpeedTimeoutCount 0 q in
  let q := set_fLastSpeed (_fSpeed q) q in
  (_fSpeed q, q).

(** [QEI::setPositionFactor] *)
Definition setPositionFactor (fPositionFactor : float) (q : QEI) : QEI :=
  set_fPositionFactor fPositionFactor q.

(** [QEI::getPosition] *)
Definition getPosition (q : QEI) : float * QEI :=
  (fmul (float_of_int (_pulses q)) (_fPositionFactor q), q).

(** The decoding block of [QEI::encode] (the two branches on [_encoding]):
    it updates [_pulses] and yields the local [change], which starts as -1. *)
Definition decode (q : QEI) : Z * QEI :=
  let change := -1 in
  match _encoding q with
  | X2_ENCODING =>
      if ((_prevState q =? 3) && (_currState q =? 0))
         || ((_prevState q =? 0) && (_currState q =? 2))
      then (0, set_pulses (sint32 (_pulses q + 1)) q)
      else if ((_prevState q =? 2) && (_currState q =? 1))
              || ((_prevState q =? 1) && (_currState q =? 2))
      then (1, set_pulses (sint32 (_pulses q - 1)) q)
      else (change, q)
  | X4_ENCODING =>
      if negb (Z.lxor (_currState q) (_prevState q) =? INVALID)
         && negb (_currState q =? _prevState q)
      then
        let change :=
          Z.lxor (Z.land (_prevState q) PREV_MASK)
                 (Z.shiftr (Z.land (_currState q) CURR_MASK) 1) in
        if change =? 0 then (change, set_pulses (sint32 (_pulses q + 1)) q)
        else if change =? 1 then (change, set_pulses (sint32 (_pulses q - 1)) q)
        else (change, q)
      else (change, q)
  end.

(** The speed block of [QEI::encode], entered when [change != -1].
    [timer_us] is what [_SpeedTimer.read_us()] returns. *)
Definition record_pulse (change : Z) (timer_us : Z) (q : QEI) : QEI :=
  let act := uint32 timer_us in
  let diff := uint32 (act - _nSpeedLastTimer q) in
  let q := set_nSpeedLastTimer act q in
  if _nSpeedAvrTimeCount q <? 0 then
    let q := set_nSpeedAvrTimeSum 0 q in
    set_nSpeedAvrTimeCount 0 q
  else
    let q :=
      if change =? 0
      then set_nSpeedAvrTimeSum (sint32 (_nSpeedAvrTimeSum q + diff)) q
      else set_nSpeedAvrTimeSum (sint32 (_nSpeedAvrTimeSum q - diff)) q in
    set_nSpeedAvrTimeCount (sint32 (_nSpeedAvrTimeCount q + 1)) q.

(** [QEI::encode], the handler of the channel edges.  [chanA] and [chanB]
    are the levels the handler reads. *)
Definition encode (chanA chanB : bool) (timer_us : Z) (q : QEI) : QEI :=
  let q := set_currState (state_of chanA chanB) q in
  let '(change, q) := decode q in
  let q := set_prevState (_currState q) q in
  if negb (change =? -1) then record_pulse change timer_us q else q.

(** [QEI::index], the handler of the index pulse. *)
Definition index (q : QEI) : QEI :=
  set_revolutions (sint32 (_revolutions q + 1)) q.

(** The value of the local [change] when the handler has decoded the levels
    [chanA], [chanB]: 0 for a forward pulse, 1 for a backward pulse, -1
    when the transition is not a pulse. *)
Definition change_of (chanA chanB : bool) (q : QEI) : Z :=
  fst (decode (set_currState (state_of chanA chanB) q)).

(** ** Sequences of calls *)

(** A call of a member function from the application, or of a handler from
    an interrupt, with what it reads from the hardware. *)
Inductive Call : Type :=
| CallEncode (chanA chanB : bool) (timer_us : Z)
| CallIndex
| CallReset
| CallRead
| CallWrite (pulses : Z)
| CallSetSpeedFactor (fSpeedFactor : float)
| CallGetSpeed
| CallSetPositionFactor (fPositionFactor : float)
| CallGetPosition.

Definition step (c : Call) (q : QEI) : QEI :=
  match c with
  | CallEncode chanA chanB timer_us => encode chanA chanB timer_us q
  | CallIndex => index q
  | CallReset => reset q
  | CallRead => snd (read q)
  | CallWrite pulses => write pulses q
  | CallSetSpeedFactor f => setSpeedFactor f q
  | CallGetSpeed => snd (getSpeed q)
  | CallSetPositionFactor f => setPositionFactor f q
  | CallGetPosition => snd (getPosition q)
  end.

Fixpoint run (cs : list Call) (q : QEI) : QEI :=
  match cs with
  | [] => q
  | c :: cs' => run cs' (step c q)
  end.

(** The speed window [(sum, count)]. *)
Definition window (q : QEI) : Z * Z :=
  (_nSpeedAvrTimeSum q, _nSpeedAvrTimeCount q).

(** The object after a query that reports [speed] and leaves the timeout
    counter at [timeout]: the window is drained, both speed members hold
    the reported value, the rest is as before. *)
Definition queried (q : QEI) (timeout : Z) (speed : float) : QEI :=
  mkQEI (_encoding q) (_prevState q) (_currState q) (_pulses q)
        (_revolutions q) (_fSpeedFactor q) (_fPositionFactor q)
        (_nSpeedLastTimer q) (_nSpeedTimeoutMax q) timeout 0 0 speed speed.

(** The values the count can take once the window has been started. *)
Definition started (count : Z) : Prop :=
  0 <= count <= INT_MAX \/ count = INT_MIN.

(** ** Example runs *)

(** Section 8 of the specification: starting from state 00, the states
    01, 11, 10, 00 are read at 0, 1000, 2000 and 3000 microseconds. *)
Definition four_forward_steps : list Call :=
  [CallEncode false true 0; CallEncode true true 1000;
   CallEncode true false 2000; CallEncode false false 3000].

Definition idle_queries (n : nat) : list Call := repeat CallGetSpeed n.

(** The object after the four steps. *)
Definition after_four_steps (fSpeed0 : float) : QEI :=
  run four_forward_steps (QEI_ctor false false X4_ENCODING fSpeed0).

(** A step forward and the same step back, each 1000 microseconds after
    the pulse before: the deltas cancel in the sum. *)
Definition back_and_forth : QEI :=
  run [CallEncode false true 0; CallEncode true true 1000;
       CallEncode false true 2000]
      (QEI_ctor false false X4_ENCODING f_0).

(** The four steps, a query, and ten more queries with no pulse between. *)
Definition idle_at_TimeoutMax : QEI :=
  run (CallGetSpeed :: idle_queries 10) (after_four_steps f_0).

(** The same with the largest finite speed factor, and twelve idle queries. *)
Definition idle_at_infinity : QEI :=
  run (CallSetSpeedFactor f_max :: four_forward_steps
         ++ CallGetSpeed :: idle_queries 12)
      (QEI_ctor false false X4_ENCODING f_0).

(** ** Notions for the properties of runs *)

(** The four values of the 2-bit state. *)
Definition is_state (s : Z) : Prop := 0 <= s <= 3.

(** The cycle 00, 01, 11, 10, 00 drawn above [QEI::encode], read from left
    to right ([gray_next]) and from right to left ([gray_prev]), and the
    place of a state in it. *)
Definition gray_next (s : Z) : Z :=
  if s =? 0 then 1 else if s =? 1 then 3 else if s =? 3 then 2 else 0.

Definition gray_prev (s : Z) : Z :=
  if s =? 0 then 2 else if s =? 2 then 3 else if s =? 3 then 1 else 0.

Definition gray_index (s : Z) : Z :=
  if s =? 0 then 0 else if s =? 1 then 1 else if s =? 3 then 2 else 3.

(** The call of the handler that reads the state [s]: channel A is bit 1,
    channel B is bit 0. *)
Definition read_state (s : Z) (timer_us : Z) : Call :=
  CallEncode (Z.testbit s 1) (Z.testbit s 0) timer_us.

(** One step along the cycle per timestamp, starting after state [s]. *)
Fixpoint forward_path (s : Z) (ts : list Z) : list Call :=
  match ts with
  | [] => []
  | t :: ts' => read_state (gray_next s) t :: forward_path (gray_next s) ts'
  end.

Fixpoint backward_path (s : Z) (ts : list Z) : list Call :=
  match ts with
  | [] => []
  | t :: ts' => read_state (gray_prev s) t :: backward_path (gray_prev s) ts'
  end.

(** Calls of the handler, one per reading (channel A, channel B, timer). *)
Definition encode_calls (rs : list (bool * bool * Z)) : list Call :=
  map (fun r => CallEncode (fst (fst r)) (snd (fst r)) (snd r)) rs.

(** No reading differs from the state before it in both bits. *)
Fixpoint no_double_flip (s : Z) (rs : list (bool * bool * Z)) : bool :=
  match rs with
  | [] => true
  | r :: rs' =>
      negb (Z.lxor s (state_of (fst (fst r)) (snd (fst r))) =? 3)
      && no_double_flip (state_of (fst (fst r)) (snd (fst r))) rs'
  end.

(** [n] times the two calls [c1], [c2]. *)
Fixpoint alternate (n : nat) (c1 c2 : Call) : list Call :=
  match n with
  | O => []
  | S n' => c1 :: c2 :: alternate n' c1 c2
  end.

(** The index pulses of a run since its last [reset], on top of [r]. *)
Fixpoint index_count (cs : list Call) (r : Z) : Z :=
  match cs with
  | [] => r
  | CallIndex :: cs' => index_count cs' (r + 1)
  | CallReset :: cs' => index_count cs' 0
  | _ :: cs' => index_count cs' r
  end.

(** The calls that act on position: the two handlers, [reset], [write]. *)
Definition position_call (c : Call) : bool :=
  match c with
  | CallEncode _ _ _ | CallIndex | CallReset | CallWrite _ => true
  | _ => false
  end.

(** The members that hold the position. *)
Definition position (q : QEI) : Encoding * Z * Z * Z * Z :=
  (_encoding q, _prevState q, _currState q, _pulses q, _revolutions q).

(** The calls that act on the speed estimate: the channel handler, the
    query and the setter of the speed factor. *)
Definition speed_call (c : Call) : bool :=
  match c with
  | CallEncode _ _ _ | CallGetSpeed | CallSetSpeedFactor _ => true
  | _ => false
  end.

(** The members that the speed estimate depends on. *)
Definition speed_state (q : QEI)
  : Encoding * Z * Z * float * (Z * Z * Z) * (Z * Z) * (float * float) :=
  (_encoding q, _prevState q, _currState q, _fSpeedFactor q,
   (_nSpeedLastTimer q, _nSpeedTimeoutMax q, _nSpeedTimeoutCount q),
   window q, (_fLastSpeed q, _fSpeed q)).


(** The integer a float stands for, when it stands for one. *)
Definition float_to_Z (x : float) : option Z :=
  match x with
  | S754_zero _ => Some 0
  | S754_finite s m e =>
      if 0 <=? e then Some (cond_Zopp s (Zpos m * 2 ^ e))
      else if Zpos m mod 2 ^ (- e) =? 0
           then Some (cond_Zopp s (Zpos m / 2 ^ (- e)))
           else None
  | _ => None
  end.


(** [_fLastSpeed *= 0.5f] *)
Definition halve (x : float) : float := fmul x f_0_5.

(** ** Facts on the machine integers *)

Ltac wrap_lia :=
  unfold sint32, uint32, modulus, int_range, uint_range,
         INT_MIN, INT_MAX, UINT_MAX in *;
  Z.div_mod_to_equations; lia.

Lemma sint32_range (z : Z) : int_range (sint32 z).
Proof. wrap_lia. Qed.


Lemma sint32_exact (z : Z) : int_range z -> sint32 z = z.
Proof. intros H. wrap_lia. Qed.

Lemma uint32_exact (z : Z) : uint_range z -> uint32 z = z.
Proof. intros H. wrap_lia. Qed.

Lemma sint32_succ_exact (p : Z) :
  INT_MIN <= p < INT_MAX -> sint32 (p + 1) = p + 1.
Proof. intros H. wrap_lia. Qed.

Lemma sint32_pred_exact (p : Z) :
  INT_MIN < p <= INT_MAX -> sint32 (p - 1) = p - 1.
Proof. intros H. wrap_lia. Qed.

Lemma sint32_succ_neq (p : Z) : sint32 (p + 1) <> p.
Proof. wrap_lia. Qed.

Lemma sint32_pred_neq (p : Z) : sint32 (p - 1) <> p.
Proof. wrap_lia. Qed.

Lemma sint32_succ_pred_neq (p : Z) : sint32 (p + 1) <> sint32 (p - 1).
Proof. wrap_lia. Qed.

Lemma sint32_succ_not_sentinel (c : Z) :
  0 <= c <= INT_MAX -> sint32 (c + 1) <> -1.
Proof. intros H. wrap_lia. Qed.

(** ** Facts on the decoder *)

Lemma state_of_cases (chanA chanB : bool) :
  state_of chanA chanB = 0 \/ state_of chanA chanB = 1 \/
  state_of chanA chanB = 2 \/ state_of chanA chanB = 3.
Proof. destruct chanA, chanB; cbv; auto. Qed.

Lemma state_of_onto (s : Z) :
  0 <= s <= 3 -> exists chanA chanB, state_of chanA chanB = s.
Proof.
  intros H.
  assert (s = 0 \/ s = 1 \/ s = 2 \/ s = 3) as [-> | [-> | [-> | ->]]] by lia.
  - exists false, false; reflexivity.
  - exists false, true; reflexivity.
  - exists true, false; reflexivity.
  - exists true, true; reflexivity.
Qed.

Lemma land_1_bit (p : Z) : Z.land p 1 = 0 \/ Z.land p 1 = 1.
Proof.
  change 1 with (Z.ones 1) at 1 2.
  rewrite Z.land_ones by lia.
  change (2 ^ 1) with 2.
  Z.div_mod_to_equations; lia.
Qed.

Lemma direction_bit (previous current : Z) :
  let direction :=
    Z.lxor (Z.land previous PREV_MASK) (Z.shiftr (Z.land current CURR_MASK) 1) in
  direction = 0 \/ direction = 1.
Proof.
  unfold PREV_MASK, CURR_MASK; cbv zeta.
  rewrite Z.shiftr_land. change (Z.shiftr 2 1) with 1.
  destruct (land_1_bit previous) as [-> | ->],
           (land_1_bit (Z.shiftr current 1)) as [-> | ->]; cbv; auto.
Qed.

(** The decoding block has three outcomes. *)
Lemma decode_cases (q : QEI) :
  decode q = (0, set_pulses (sint32 (_pulses q + 1)) q) \/
  decode q = (1, set_pulses (sint32 (_pulses q - 1)) q) \/
  decode q = (-1, q).
Proof.
  unfold decode.
  destruct (_encoding q).
  - destruct (_ || _); [now left |].
    destruct (_ || _); [now right; left | now right; right].
  - destruct (_ && _); [| now right; right].
    destruct (direction_bit (_prevState q) (_currState q)) as [-> | ->];
      cbn; auto.
Qed.

Lemma change_of_cases (chanA chanB : bool) (q : QEI) :
  change_of chanA chanB q = 0 \/ change_of chanA chanB q = 1 \/
  change_of chanA chanB q = -1.
Proof.
  unfold change_of.
  destruct (decode_cases (set_currState (state_of chanA chanB) q))
    as [-> | [-> | ->]]; cbn; auto.
Qed.

(** What [encode] does, by the value of [change]. *)
Lemma encode_forward (chanA chanB : bool) (timer_us : Z) (q : QEI) :
  change_of chanA chanB q = 0 ->
  encode chanA chanB timer_us q =
  record_pulse 0 timer_us
    (set_prevState (state_of chanA chanB)
       (set_pulses (sint32 (_pulses q + 1))
          (set_currState (state_of chanA chanB) q))).
Proof.
  unfold change_of, encode.
  destruct (decode_cases (set_currState (state_of chanA chanB) q))
    as [-> | [-> | ->]]; cbn; intros H; try discriminate H; reflexivity.
Qed.

Lemma encode_backward (chanA chanB : bool) (timer_us : Z) (q : QEI) :
  change_of chanA chanB q = 1 ->
  encode chanA chanB timer_us q =
  record_pulse 1 timer_us
    (set_prevState (state_of chanA chanB)
       (set_pulses (sint32 (_pulses q - 1))
          (set_currState (state_of chanA chanB) q))).
Proof.
  unfold change_of, encode.
  destruct (decode_cases (set_currState (state_of chanA chanB) q))
    as [-> | [-> | ->]]; cbn; intros H; try discriminate H; reflexivity.
Qed.

Lemma encode_nochange (chanA chanB : bool) (timer_us : Z) (q : QEI) :
  change_of chanA chanB q = -1 ->
  encode chanA chanB timer_us q =
  set_prevState (state_of chanA chanB) (set_currState (state_of chanA chanB) q).
Proof.
  unfold change_of, encode.
  destruct (decode_cases (set_currState (state_of chanA chanB) q))
    as [-> | [-> | ->]]; cbn; intros H; try discriminate H; reflexivity.
Qed.

Lemma record_pulse_pulses (change timer_us : Z) (q : QEI) :
  _pulses (record_pulse change timer_us q) = _pulses q.
Proof.
  unfold record_pulse; cbn.
  destruct (_ <? 0); [reflexivity |].
  destruct (change =? 0); reflexivity.
Qed.

Lemma record_pulse_prevState (change timer_us : Z) (q : QEI) :
  _prevState (record_pulse change timer_us q) = _prevState q /\
  _currState (record_pulse change timer_us q) = _currState q.
Proof.
  unfold record_pulse; cbn.
  destruct (_ <? 0); [split; reflexivity |].
  destruct (change =? 0); split; reflexivity.
Qed.

(** The pulse count tells the three outcomes apart. *)
Lemma encode_pulses (chanA chanB : bool) (timer_us : Z) (q : QEI) :
  let q' := encode chanA chanB timer_us q in
  (change_of chanA chanB q = 0 <-> _pulses q' = sint32 (_pulses q + 1)) /\
  (change_of chanA chanB q = 1 <-> _pulses q' = sint32 (_pulses q - 1)) /\
  (change_of chanA chanB q = -1 <-> _pulses q' = _pulses q).
Proof.
  cbv zeta.
  pose proof (sint32_succ_neq (_pulses q)) as N1.
  pose proof (sint32_pred_neq (_pulses q)) as N2.
  pose proof (sint32_succ_pred_neq (_pulses q)) as N3.
  destruct (change_of_cases chanA chanB q) as [H | [H | H]].
  - rewrite (encode_forward _ _ _ _ H), record_pulse_pulses, H; cbn.
    repeat split; intros; try congruence; try lia.
  - rewrite (encode_backward _ _ _ _ H), record_pulse_pulses, H; cbn.
    repeat split; intros; try congruence; try lia.
  - rewrite (encode_nochange _ _ _ _ H), H; cbn.
    repeat split; intros; try congruence; try lia.
Qed.

Lemma change_of_X4 (chanA chanB : bool) (q : QEI) :
  _encoding q = X4_ENCODING ->
  change_of chanA chanB q =
  if negb (Z.lxor (state_of chanA chanB) (_prevState q) =? INVALID)
     && negb (state_of chanA chanB =? _prevState q)
  then Z.lxor (Z.land (_prevState q) PREV_MASK)
              (Z.shiftr (Z.land (state_of chanA chanB) CURR_MASK) 1)
  else -1.
Proof.
  intros HX4. unfold change_of, decode.
  change (_encoding (set_currState (state_of chanA chanB) q)) with (_encoding q).
  change (_prevState (set_currState (state_of chanA chanB) q))
    with (_prevState q).
  change (_currState (set_currState (state_of chanA chanB) q))
    with (state_of chanA chanB).
  rewrite HX4.
  destruct (_ && _); [| reflexivity].
  cbv zeta.
  destruct (direction_bit (_prevState q) (state_of chanA chanB)) as [E | E];
    cbv zeta in E; rewrite E; reflexivity.
Qed.

Lemma change_of_X2 (chanA chanB : bool) (q : QEI) :
  _encoding q = X2_ENCODING ->
  change_of chanA chanB q =
  if ((_prevState q =? 3) && (state_of chanA chanB =? 0))
     || ((_prevState q =? 0) && (state_of chanA chanB =? 2))
  then 0
  else if ((_prevState q =? 2) && (state_of chanA chanB =? 1))
          || ((_prevState q =? 1) && (state_of chanA chanB =? 2))
  then 1
  else -1.
Proof.
  intros HX2. unfold change_of, decode. cbn. rewrite HX2.
  destruct (_ || _); [reflexivity |].
  destruct (_ || _); reflexivity.
Qed.

Lemma X2_forward_iff (p c : Z) :
  ((p =? 3) && (c =? 0)) || ((p =? 0) && (c =? 2)) = true <->
  (p = 3 /\ c = 0) \/ (p = 0 /\ c = 2).
Proof. rewrite orb_true_iff, !andb_true_iff, !Z.eqb_eq. reflexivity. Qed.

Lemma X2_backward_iff (p c : Z) :
  ((p =? 2) && (c =? 1)) || ((p =? 1) && (c =? 2)) = true <->
  (p = 2 /\ c = 1) \/ (p = 1 /\ c = 2).
Proof. rewrite orb_true_iff, !andb_true_iff, !Z.eqb_eq. reflexivity. Qed.

Lemma X2_exclusive (p c : Z) :
  (p = 3 /\ c = 0) \/ (p = 0 /\ c = 2) ->
  (p = 2 /\ c = 1) \/ (p = 1 /\ c = 2) -> False.
Proof. lia. Qed.

(** ** The transition decoder *)

(** C1.  In X4 mode, when previous XOR current is not 0b11 and the two
    states differ, the handler computes
    direction = (previous & 0b01) XOR ((current & 0b10) >> 1), which is 0 or
    1; the pulse count goes up by one when it is 0 and down by one when it
    is 1 (as [int] arithmetic, exactly so away from the ends of the range).
    When previous equals current the pulse count stays. *)
Theorem encode_X4_direction (q : QEI) (chanA chanB : bool) (timer_us : Z) :
  _encoding q = X4_ENCODING ->
  let previous := _prevState q in
  let current := state_of chanA chanB in
  let direction :=
    Z.lxor (Z.land previous 1) (Z.shiftr (Z.land current 2) 1) in
  let q' := encode chanA chanB timer_us q in
  (Z.lxor previous current <> 3 -> previous <> current ->
   change_of chanA chanB q = direction /\
   (direction = 0 \/ direction = 1) /\
   (direction = 0 ->
    _pulses q' = sint32 (_pulses q + 1) /\
    (INT_MIN <= _pulses q < INT_MAX -> _pulses q' = _pulses q + 1)) /\
   (direction = 1 ->
    _pulses q' = sint32 (_pulses q - 1) /\
    (INT_MIN < _pulses q <= INT_MAX -> _pulses q' = _pulses q - 1))) /\
  (previous = current -> _pulses q' = _pulses q).
Proof.
  intros HX4; cbv zeta.
  pose proof (encode_pulses chanA chanB timer_us q) as (P0 & P1 & PN).
  cbv zeta in P0, P1, PN.
  pose proof (change_of_X4 chanA chanB q HX4) as HC.
  unfold INVALID, PREV_MASK, CURR_MASK in HC.
  split.
  - intros Hxor Hneq.
    assert (change_of chanA chanB q =
            Z.lxor (Z.land (_prevState q) 1)
                   (Z.shiftr (Z.land (state_of chanA chanB) 2) 1)) as HD.
    { rewrite HC.
      destruct (Z.eqb_spec (Z.lxor (state_of chanA chanB) (_prevState q)) 3)
        as [E | _].
      - rewrite Z.lxor_comm in E. contradiction.
      - destruct (Z.eqb_spec (state_of chanA chanB) (_prevState q))
          as [E | _]; [symmetry in E; contradiction | reflexivity]. }
    split; [exact HD |].
    split; [apply (direction_bit (_prevState q) (state_of chanA chanB)) |].
    rewrite <- HD. split; intros H.
    + apply P0 in H. split; [exact H |].
      intros R. rewrite H. apply sint32_succ_exact, R.
    + apply P1 in H. split; [exact H |].
      intros R. rewrite H. apply sint32_pred_exact, R.
  - intros Heq. apply PN. rewrite HC.
    rewrite <- Heq, Z.eqb_refl, andb_false_r. reflexivity.
Qed.

Lemma encode_X4_direction_witness :
  _encoding (QEI_ctor false false X4_ENCODING f_0) = X4_ENCODING /\
  _pulses (encode false true 0 (QEI_ctor false false X4_ENCODING f_0)) = 1.
Proof.
  split; [reflexivity |].
  destruct (encode_X4_direction (QEI_ctor false false X4_ENCODING f_0)
              false true 0 eq_refl) as [H _].
  destruct H as (_ & _ & H & _).
  - cbv; discriminate.
  - cbv; discriminate.
  - destruct H as [H _]; [reflexivity | exact H].
Defined.

(** C2.  In X2 mode the pulse count goes up by one exactly on 11 -> 00 and
    00 -> 10, down by one exactly on 10 -> 01 and 01 -> 10, and stays on
    every other pair, the pairs with previous = current among them. *)
Theorem encode_X2_pulses (q : QEI) (chanA chanB : bool) (timer_us : Z) :
  _encoding q = X2_ENCODING ->
  let previous := _prevState q in
  let current := state_of chanA chanB in
  let q' := encode chanA chanB timer_us q in
  let forward :=
    (previous = 3 /\ current = 0) \/ (previous = 0 /\ current = 2) in
  let backward :=
    (previous = 2 /\ current = 1) \/ (previous = 1 /\ current = 2) in
  (_pulses q' = sint32 (_pulses q + 1) <-> forward) /\
  (_pulses q' = sint32 (_pulses q - 1) <-> backward) /\
  (_pulses q' = _pulses q <-> ~ forward /\ ~ backward) /\
  (previous = current -> _pulses q' = _pulses q) /\
  (forward -> INT_MIN <= _pulses q < INT_MAX -> _pulses q' = _pulses q + 1) /\
  (backward -> INT_MIN < _pulses q <= INT_MAX -> _pulses q' = _pulses q - 1).
Proof.
  intros HX2; cbv zeta.
  pose proof (encode_pulses chanA chanB timer_us q) as (P0 & P1 & PN).
  cbv zeta in P0, P1, PN.
  pose proof (change_of_X2 chanA chanB q HX2) as HC.
  set (p := _prevState q) in *. set (c := state_of chanA chanB) in *.
  pose proof (X2_forward_iff p c) as RF.
  pose proof (X2_backward_iff p c) as RB.
  pose proof (X2_exclusive p c) as RX.
  assert (change_of chanA chanB q = 0 <->
          (p = 3 /\ c = 0) \/ (p = 0 /\ c = 2)) as F.
  { rewrite HC, <- RF.
    destruct (_ || _); [tauto |].
    destruct (_ || _); split; intros H; discriminate H. }
  assert (change_of chanA chanB q = 1 <->
          (p = 2 /\ c = 1) \/ (p = 1 /\ c = 2)) as B.
  { rewrite HC. rewrite <- RF in RX. rewrite <- RB in RX. rewrite <- RB.
    destruct (_ || _).
    - split; [intros H; discriminate H | intros H; exfalso; auto].
    - destruct (_ || _); split; intros H; try discriminate H; reflexivity. }
  assert (change_of chanA chanB q = -1 <->
          ~ ((p = 3 /\ c = 0) \/ (p = 0 /\ c = 2)) /\
          ~ ((p = 2 /\ c = 1) \/ (p = 1 /\ c = 2))) as N.
  { rewrite <- F, <- B.
    destruct (change_of_cases chanA chanB q) as [-> | [-> | ->]];
      split; intros H; try discriminate H; try (split; discriminate);
      destruct H as [H1 H2]; exfalso; auto. }
  rewrite <- P0, <- P1, <- PN.
  split; [exact F |]. split; [exact B |]. split; [exact N |].
  split; [| split].
  - intros E. apply N. rewrite <- E.
    split; intros [[H1 H2] | [H1 H2]]; rewrite H1 in H2; discriminate H2.
  - intros Hf R. apply F, P0 in Hf. rewrite Hf.
    apply sint32_succ_exact, R.
  - intros Hb R. apply B, P1 in Hb. rewrite Hb.
    apply sint32_pred_exact, R.
Qed.

Lemma encode_X2_pulses_witness :
  _encoding (QEI_ctor true true X2_ENCODING f_0) = X2_ENCODING /\
  _pulses (encode false false 0 (QEI_ctor true true X2_ENCODING f_0)) = 1.
Proof.
  split; [reflexivity |].
  destruct (encode_X2_pulses (QEI_ctor true true X2_ENCODING f_0)
              false false 0 eq_refl) as (H & _).
  apply H. left. split; reflexivity.
Defined.

(** ** The speed window under [encode] *)

Lemma record_pulse_window (change timer_us : Z) (q : QEI) :
  let q' := record_pulse change timer_us q in
  let diff := uint32 (uint32 timer_us - _nSpeedLastTimer q) in
  _nSpeedLastTimer q' = uint32 timer_us /\
  (_nSpeedAvrTimeCount q < 0 -> window q' = (0, 0)) /\
  (0 <= _nSpeedAvrTimeCount q -> change = 0 ->
   window q' = (sint32 (_nSpeedAvrTimeSum q + diff),
                sint32 (_nSpeedAvrTimeCount q + 1))) /\
  (0 <= _nSpeedAvrTimeCount q -> change <> 0 ->
   window q' = (sint32 (_nSpeedAvrTimeSum q - diff),
                sint32 (_nSpeedAvrTimeCount q + 1))).
Proof.
  cbv zeta. unfold record_pulse, window.
  change (_nSpeedAvrTimeCount (set_nSpeedLastTimer (uint32 timer_us) q))
    with (_nSpeedAvrTimeCount q).
  destruct (Z.ltb_spec (_nSpeedAvrTimeCount q) 0) as [Hneg | Hpos].
  - cbn. repeat split; intros; try reflexivity; lia.
  - destruct (Z.eqb_spec change 0) as [E | E]; cbn;
      repeat split; intros; try reflexivity; try lia; contradiction.
Qed.

(** The window after a call that decodes a pulse. *)
Lemma encode_window_pulse (q : QEI) (chanA chanB : bool) (timer_us c : Z) :
  change_of chanA chanB q = c -> c = 0 \/ c = 1 ->
  let q' := encode chanA chanB timer_us q in
  let diff := uint32 (uint32 timer_us - _nSpeedLastTimer q) in
  _nSpeedLastTimer q' = uint32 timer_us /\
  (_nSpeedAvrTimeCount q < 0 -> window q' = (0, 0)) /\
  (0 <= _nSpeedAvrTimeCount q -> c = 0 ->
   window q' = (sint32 (_nSpeedAvrTimeSum q + diff),
                sint32 (_nSpeedAvrTimeCount q + 1))) /\
  (0 <= _nSpeedAvrTimeCount q -> c <> 0 ->
   window q' = (sint32 (_nSpeedAvrTimeSum q - diff),
                sint32 (_nSpeedAvrTimeCount q + 1))).
Proof.
  intros Hc [-> | ->]; cbv zeta.
  - rewrite (encode_forward _ _ _ _ Hc).
    match goal with
    | |- context [record_pulse ?c ?t ?q1] => exact (record_pulse_window c t q1)
    end.
  - rewrite (encode_backward _ _ _ _ Hc).
    match goal with
    | |- context [record_pulse ?c ?t ?q1] => exact (record_pulse_window c t q1)
    end.
Qed.

(** C4.  The constructor leaves the window at sum = 0, count = -1 and the
    last timestamp at 0.  On a pulse (forward: [change] = 0, the pulse count
    goes up; backward: [change] = 1, it goes down) the last timestamp
    becomes the current one and, with delta the current timestamp minus the
    stored one in [unsigned int] arithmetic: a negative count makes the
    window (0, 0) and drops delta; otherwise the sum gains delta on a
    forward pulse, loses it on a backward pulse, and the count goes up by
    one.  A call that decodes no pulse leaves window and last timestamp
    as they were. *)
Theorem encode_window :
  (forall (chanA chanB : bool) (encoding : Encoding) (fSpeed0 : float),
      let q := QEI_ctor chanA chanB encoding fSpeed0 in
      _nSpeedLastTimer q = 0 /\ window q = (0, -1)) /\
  (forall (q : QEI) (chanA chanB : bool) (timer_us : Z),
      let change := change_of chanA chanB q in
      let q' := encode chanA chanB timer_us q in
      let last := _nSpeedLastTimer q in
      let sum := _nSpeedAvrTimeSum q in
      let count := _nSpeedAvrTimeCount q in
      let delta := uint32 (uint32 timer_us - last) in
      (change = 0 \/ change = 1 \/ change = -1) /\
      (change = 0 <-> _pulses q' = sint32 (_pulses q + 1)) /\
      (change = 1 <-> _pulses q' = sint32 (_pulses q - 1)) /\
      (change = -1 <-> _pulses q' = _pulses q) /\
      (0 <= last <= timer_us -> timer_us <= UINT_MAX ->
       delta = timer_us - last) /\
      (change = 0 \/ change = 1 -> _nSpeedLastTimer q' = uint32 timer_us) /\
      (change = 0 \/ change = 1 -> count < 0 -> window q' = (0, 0)) /\
      (change = 0 -> 0 <= count ->
       window q' = (sint32 (sum + delta), sint32 (count + 1))) /\
      (change = 1 -> 0 <= count ->
       window q' = (sint32 (sum - delta), sint32 (count + 1))) /\
      (change = 0 -> 0 <= count < INT_MAX -> int_range (sum + delta) ->
       window q' = (sum + delta, count + 1)) /\
      (change = 1 -> 0 <= count < INT_MAX -> int_range (sum - delta) ->
       window q' = (sum - delta, count + 1)) /\
      (change = -1 ->
       window q' = window q /\ _nSpeedLastTimer q' = _nSpeedLastTimer q)).
Proof.
  split; [intros; split; reflexivity |].
  intros q chanA chanB timer_us; cbv zeta.
  pose proof (encode_pulses chanA chanB timer_us q) as (P0 & P1 & PN).
  cbv zeta in P0, P1, PN.
  split; [apply change_of_cases |].
  split; [exact P0 |]. split; [exact P1 |]. split; [exact PN |].
  clear P0 P1 PN.
  split.
  { intros H1 H2. rewrite (uint32_exact timer_us).
    - apply uint32_exact. unfold uint_range, UINT_MAX in *. lia.
    - unfold uint_range, UINT_MAX in *. lia. }
  assert (forall c,
             change_of chanA chanB q = c -> c = 0 \/ c = 1 ->
             let q' := encode chanA chanB timer_us q in _)
    as HW by (intros c; exact (encode_window_pulse q chanA chanB timer_us c)).
  cbv zeta in HW.
  split.
  { intros [H | H]; apply (HW _ H); auto. }
  split.
  { intros [H | H] Hneg; apply (HW _ H); auto. }
  split.
  { intros H Hpos. apply (HW _ H); auto. }
  split.
  { intros H Hpos. apply (HW _ H); auto. discriminate. }
  split.
  { intros H Hpos Hr.
    destruct (HW _ H) as (_ & _ & W & _); [auto |].
    rewrite W by (lia || reflexivity).
    rewrite (sint32_exact _ Hr), sint32_succ_exact; [reflexivity |].
    unfold INT_MIN, INT_MAX in *. lia. }
  split.
  { intros H Hpos Hr.
    destruct (HW _ H) as (_ & _ & _ & W); [auto |].
    rewrite W by (lia || discriminate).
    rewrite (sint32_exact _ Hr), sint32_succ_exact; [reflexivity |].
    unfold INT_MIN, INT_MAX in *. lia. }
  intros H. rewrite (encode_nochange _ _ _ _ H). split; reflexivity.
Qed.

Lemma encode_window_witness :
  window (encode true true 1000
            (encode false true 0 (QEI_ctor false false X4_ENCODING f_0)))
  = (1000, 1).
Proof.
  destruct encode_window as [_ H].
  specialize (H (encode false true 0 (QEI_ctor false false X4_ENCODING f_0))
                true true 1000).
  cbv zeta in H.
  destruct H as (_ & _ & _ & _ & _ & _ & _ & _ & _ & H & _).
  apply H.
  - reflexivity.
  - vm_compute. split; [intro C; discriminate C | reflexivity].
  - vm_compute. split; intro C; discriminate C.
Defined.

(** C5.  Every call of the handler, in both modes and on every transition,
    ends with previous = current; in X4 mode a transition with
    previous XOR current = 0b11 leaves the pulse count as it was. *)
Theorem encode_prevState :
  (forall (q : QEI) (chanA chanB : bool) (timer_us : Z),
      _prevState (encode chanA chanB timer_us q) = state_of chanA chanB /\
      _currState (encode chanA chanB timer_us q) = state_of chanA chanB) /\
  (forall (q : QEI) (chanA chanB : bool) (timer_us : Z),
      _encoding q = X4_ENCODING ->
      Z.lxor (_prevState q) (state_of chanA chanB) = 3 ->
      _pulses (encode chanA chanB timer_us q) = _pulses q /\
      _prevState (encode chanA chanB timer_us q) = state_of chanA chanB).
Proof.
  assert (forall q chanA chanB timer_us,
             _prevState (encode chanA chanB timer_us q) = state_of chanA chanB /\
             _currState (encode chanA chanB timer_us q) = state_of chanA chanB)
    as HP.
  { intros q chanA chanB timer_us.
    destruct (change_of_cases chanA chanB q) as [H | [H | H]].
    - rewrite (encode_forward _ _ _ _ H). apply record_pulse_prevState.
    - rewrite (encode_backward _ _ _ _ H). apply record_pulse_prevState.
    - rewrite (encode_nochange _ _ _ _ H). split; reflexivity. }
  split; [exact HP |].
  intros q chanA chanB timer_us HX4 Hxor.
  split; [| apply HP].
  apply (encode_pulses chanA chanB timer_us q).
  rewrite (change_of_X4 _ _ _ HX4), Z.lxor_comm, Hxor. reflexivity.
Qed.

Lemma encode_prevState_witness :
  let q := QEI_ctor false false X4_ENCODING f_0 in
  _encoding q = X4_ENCODING /\
  Z.lxor (_prevState q) (state_of true true) = 3 /\
  _pulses (encode true true 500 q) = 0 /\
  _prevState (encode true true 500 q) = 3.
Proof.
  cbv zeta. split; [reflexivity |]. split; [reflexivity |].
  destruct encode_prevState as [_ H].
  apply (H (QEI_ctor false false X4_ENCODING f_0) true true 500);
    reflexivity.
Defined.

(** ** Halving a binary32 value *)

Lemma digits2_times_2p23 (m : positive) :
  Zpos (digits2_pos (8388608 * m)) = Zpos (digits2_pos m) + 23.
Proof. cbn [Pos.mul digits2_pos]. rewrite !Pos2Z.inj_succ. lia. Qed.

Lemma digits2_succ_le (p : positive) :
  Zpos (digits2_pos (Pos.succ p)) <= Zpos (digits2_pos p) + 1.
Proof.
  induction p as [p IH | p IH |]; cbn [Pos.succ digits2_pos];
    rewrite ?Pos2Z.inj_succ; lia.
Qed.

(** A normal value above the least exponent is halved exactly. *)
Lemma fmul_half_normal (s : bool) (m : positive) (e : Z) :
  Zpos (digits2_pos m) = 24 -> -149 < e <= 104 ->
  fmul (S754_finite s m e) f_0_5 = S754_finite s m (e - 1).
Proof.
  intros Hd He.
  unfold fmul, f_0_5, SFmul. rewrite xorb_false_r, Pos.mul_comm.
  unfold binary_round_aux, shr_fexp.
  change (Zdigits2 (Z.pos (8388608 * m)))
    with (Z.pos (digits2_pos (8388608 * m))).
  rewrite digits2_times_2p23, Hd.
  replace (fexp prec emax (24 + 23 + (e + -24)) - (e + -24)) with 23
    by (unfold fexp, emin, prec, emax; lia).
  cbn [Pos.mul shr_record_of_loc shr iter_pos shr_1 orb].
  cbn [shr_m loc_of_shr_record round_nearest_even].
  unfold Zdigits2. rewrite Hd.
  replace (fexp prec emax (24 + (e + -24 + 23)) - (e + -24 + 23)) with 0
    by (unfold fexp, emin, prec, emax; lia).
  cbn [shr shr_record_of_loc shr_m].
  replace (e + -24 + 23) with (e - 1) by lia.
  destruct (Z.leb_spec (e - 1) (emax - prec)) as [_ | H]; [reflexivity |].
  unfold emax, prec in H. lia.
Qed.

(** A mantissa of at most 24 bits at the least exponent needs no shift. *)
Lemma round_min_exp (s : bool) (m : positive) :
  Zpos (digits2_pos m) <= 24 ->
  (let '(mrs, e) := shr_fexp prec emax (Zpos m) (-149) loc_Exact in
   match shr_m mrs with
   | 0 => S754_zero s
   | Zpos m0 =>
       if e <=? emax - prec then S754_finite s m0 e else S754_infinity s
   | Zneg _ => S754_nan
   end) = S754_finite s m (-149).
Proof.
  intros Hd. unfold shr_fexp.
  change (Zdigits2 (Zpos m)) with (Zpos (digits2_pos m)).
  replace (fexp prec emax (Zpos (digits2_pos m) + -149) - -149) with 0
    by (unfold fexp, emin, prec, emax; lia).
  reflexivity.
Qed.

(** At the least exponent the mantissa is halved and rounded. *)
Lemma fmul_half_min_exp (s : bool) (m : positive) :
  Zpos (digits2_pos m) <= 24 ->
  fmul (S754_finite s m (-149)) f_0_5 = half_min_exp s m.
Proof.
  intros Hd.
  unfold fmul, f_0_5, SFmul. rewrite xorb_false_r, Pos.mul_comm.
  unfold binary_round_aux. unfold shr_fexp at 1.
  change (Zdigits2 (Z.pos (8388608 * m)))
    with (Z.pos (digits2_pos (8388608 * m))).
  rewrite digits2_times_2p23.
  replace (fexp prec emax (Zpos (digits2_pos m) + 23 + (-149 + -24))
           - (-149 + -24))
    with 24 by (unfold fexp, emin, prec, emax; lia).
  destruct m as [p | p |].
  - cbn [Pos.mul shr_record_of_loc shr iter_pos shr_1 orb].
    cbn [shr_m loc_of_shr_record round_nearest_even].
    change (-149 + -24 + 24) with (-149).
    cbn [digits2_pos] in Hd. rewrite Pos2Z.inj_succ in Hd.
    unfold half_min_exp.
    destruct (Z.even (Zpos p)).
    + apply round_min_exp. lia.
    + replace (Zpos p + 1) with (Zpos (Pos.succ p))
        by (rewrite Pos2Z.inj_succ; lia).
      apply round_min_exp. pose proof (digits2_succ_le p). lia.
  - cbn [Pos.mul shr_record_of_loc shr iter_pos shr_1 orb].
    cbn [shr_m loc_of_shr_record round_nearest_even].
    change (-149 + -24 + 24) with (-149).
    cbn [digits2_pos] in Hd. rewrite Pos2Z.inj_succ in Hd.
    apply round_min_exp. lia.
  - reflexivity.
Qed.

(** Halving a finite binary32 value other than zero makes it strictly
    smaller in magnitude. *)
Lemma fmul_half_lt (x : float) :
  valid x = true -> is_finite x = true -> is_zero x = false ->
  fltb (fabs (fmul x f_0_5)) (fabs x) = true.
Proof.
  destruct x as [s | s | | s m e]; cbn [is_finite is_zero];
    intros Hv Hf Hz; try discriminate.
  unfold valid, valid_binary, bounded, canonical_mantissa in Hv.
  apply andb_true_iff in Hv. destruct Hv as [Hc He].
  apply Z.eqb_eq in Hc. apply Z.leb_le in He.
  unfold fexp, emin, prec, emax in Hc, He.
  assert ((Zpos (digits2_pos m) = 24 /\ -149 < e <= 104) \/
          (e = -149 /\ Zpos (digits2_pos m) <= 24)) as [[Hd Hr] | [-> Hd]]
    by lia.
  - rewrite (fmul_half_normal s m e Hd Hr).
    unfold fltb, SFltb, fabs, SFabs, SFcompare.
    replace (e - 1 ?= e) with Lt by (symmetry; apply Z.compare_lt_iff; lia).
    reflexivity.
  - rewrite (fmul_half_min_exp s m Hd).
    unfold fltb, SFltb, fabs, SFabs.
    destruct m as [p | p |]; cbn [half_min_exp SFcompare];
      rewrite ?Z.compare_refl, ?Pos.compare_cont_spec; cbn [Pos.switch_Eq].
    + replace (_ ?= p~1)%positive with Lt; [reflexivity |].
      symmetry. apply Pos.compare_lt_iff. destruct (Z.even (Zpos p)); lia.
    + replace (p ?= p~0)%positive with Lt; [reflexivity |].
      symmetry. apply Pos.compare_lt_iff. lia.
    + reflexivity.
Qed.

(** Halving keeps a finite binary32 value finite and well formed. *)
Lemma fmul_half_valid (x : float) :
  valid x = true -> is_finite x = true ->
  valid (fmul x f_0_5) = true /\ is_finite (fmul x f_0_5) = true.
Proof.
  destruct x as [s | s | | s m e]; cbn [is_finite];
    intros Hv Hf; try discriminate.
  - split; reflexivity.
  - unfold valid, valid_binary, bounded, canonical_mantissa in Hv.
    apply andb_true_iff in Hv. destruct Hv as [Hc He].
    apply Z.eqb_eq in Hc. apply Z.leb_le in He.
    unfold fexp, emin, prec, emax in Hc, He.
    assert ((Zpos (digits2_pos m) = 24 /\ -149 < e <= 104) \/
            (e = -149 /\ Zpos (digits2_pos m) <= 24)) as [[Hd Hr] | [-> Hd]]
      by lia.
    + rewrite (fmul_half_normal s m e Hd Hr). split; [| reflexivity].
      unfold valid, valid_binary, bounded, canonical_mantissa.
      apply andb_true_iff. split.
      * apply Z.eqb_eq. unfold fexp, emin, prec, emax. lia.
      * apply Z.leb_le. unfold prec, emax. lia.
    + rewrite (fmul_half_min_exp s m Hd).
      assert (forall p, Zpos (digits2_pos p) <= 24 ->
                        valid (S754_finite s p (-149)) = true) as V.
      { intros p Hp.
        unfold valid, valid_binary, bounded, canonical_mantissa.
        apply andb_true_iff. split; [| reflexivity].
        apply Z.eqb_eq. unfold fexp, emin, prec, emax. lia. }
      destruct m as [p | p |]; cbn [half_min_exp];
        cbn [digits2_pos] in Hd; rewrite ?Pos2Z.inj_succ in Hd.
      * split; [| reflexivity]. apply V.
        pose proof (digits2_succ_le p). destruct (Z.even (Zpos p)); lia.
      * split; [| reflexivity]. apply V. lia.
      * split; reflexivity.
Qed.

Lemma float_literals :
  float_of_int 0 = f_0 /\ float_of_int 1 = f_1 /\
  float_of_int 1000000 = f_1000000 /\ float_of_int 1000 = f_1000 /\
  float_of_int 500 = f_500 /\ fmul f_1 f_0_5 = f_0_5 /\
  valid f_0_5 = true /\ valid f_1 = true /\ valid f_1000000 = true /\
  valid f_max = true.
Proof. repeat split; reflexivity. Qed.

(** ** The speed query *)

Lemma getSpeed_idle_eq (q : QEI) :
  _nSpeedAvrTimeCount q = 0 ->
  getSpeed q =
  let speed :=
    if _nSpeedTimeoutCount q >? _nSpeedTimeoutMax q
    then fmul (_fLastSpeed q) f_0_5 else _fLastSpeed q in
  (speed, queried q (uint32 (_nSpeedTimeoutCount q + 1)) speed).
Proof.
  intros H. unfold getSpeed. rewrite H.
  change (0 =? 0) with true. cbv iota zeta.
  change (_nSpeedTimeoutCount
            (set_nSpeedAvrTimeCount 0 (set_nSpeedAvrTimeSum 0 q)))
    with (_nSpeedTimeoutCount q).
  change (_nSpeedTimeoutMax
            (set_nSpeedTimeoutCount (uint32 (_nSpeedTimeoutCount q + 1))
               (set_nSpeedAvrTimeCount 0 (set_nSpeedAvrTimeSum 0 q))))
    with (_nSpeedTimeoutMax q).
  destruct (_ >? _); reflexivity.
Qed.

Lemma getSpeed_stopped_eq (q : QEI) :
  _nSpeedAvrTimeCount q <> 0 ->
  _nSpeedAvrTimeCount q < 0 \/ _nSpeedAvrTimeSum q = 0 ->
  getSpeed q = (f_0, queried q 0 f_0).
Proof.
  intros Hnz H. unfold getSpeed.
  destruct (Z.eqb_spec (_nSpeedAvrTimeCount q) 0) as [E | _];
    [contradiction |].
  assert ((_nSpeedAvrTimeCount q <? 0) || (_nSpeedAvrTimeSum q =? 0) = true)
    as ->.
  { apply orb_true_iff. destruct H as [H | H].
    - left. apply Z.ltb_lt, H.
    - right. apply Z.eqb_eq, H. }
  reflexivity.
Qed.

Lemma getSpeed_moving_eq (q : QEI) :
  0 < _nSpeedAvrTimeCount q -> _nSpeedAvrTimeSum q <> 0 ->
  getSpeed q =
  let speed :=
    fdiv (fmul f_1000000 (_fSpeedFactor q))
         (fdiv (float_of_int (_nSpeedAvrTimeSum q))
               (float_of_int (_nSpeedAvrTimeCount q))) in
  (speed, queried q 0 speed).
Proof.
  intros Hc Hs. unfold getSpeed.
  destruct (Z.eqb_spec (_nSpeedAvrTimeCount q) 0) as [E | _]; [lia |].
  destruct (Z.ltb_spec (_nSpeedAvrTimeCount q) 0) as [E | _]; [lia |].
  destruct (Z.eqb_spec (_nSpeedAvrTimeSum q) 0) as [E | _];
    [contradiction |].
  reflexivity.
Qed.

(** Every query ends in a [queried] object that holds what it returns. *)
Lemma getSpeed_queried (q : QEI) :
  exists timeout, snd (getSpeed q) = queried q timeout (fst (getSpeed q)).
Proof.
  destruct (Z.eq_dec (_nSpeedAvrTimeCount q) 0) as [H0 | Hnz].
  - rewrite (getSpeed_idle_eq q H0). cbv zeta. eexists. reflexivity.
  - destruct (Z.eq_dec (_nSpeedAvrTimeSum q) 0) as [Hs | Hs].
    + rewrite (getSpeed_stopped_eq q Hnz (or_intror Hs)).
      eexists. reflexivity.
    + destruct (Z_lt_le_dec (_nSpeedAvrTimeCount q) 0) as [Hn | Hp].
      * rewrite (getSpeed_stopped_eq q Hnz (or_introl Hn)).
        eexists. reflexivity.
      * rewrite (getSpeed_moving_eq q) by lia. eexists. reflexivity.
Qed.

(** C3, amended.  A query that drains count = 0 increments the timeout
    counter (an [unsigned int]); when the counter's value before the
    increment exceeds the maximum it multiplies the last speed by 0.5f,
    otherwise it keeps it; it reports the result and stores it as the last
    speed, and leaves the window at (0, 0), so that the next query without
    a pulse is of the same kind.  A finite last speed stays finite; the
    multiplication makes a finite last speed other than zero strictly
    smaller in magnitude, and halves a normal one above the least exponent
    exactly. *)
Theorem getSpeed_idle (q : QEI) :
  _nSpeedAvrTimeCount q = 0 ->
  let old := _nSpeedTimeoutCount q in
  let last := _fLastSpeed q in
  let speed := fst (getSpeed q) in
  let q' := snd (getSpeed q) in
  _nSpeedTimeoutCount q' = uint32 (old + 1) /\
  (0 <= old < UINT_MAX -> _nSpeedTimeoutCount q' = old + 1) /\
  (old > _nSpeedTimeoutMax q -> speed = fmul last f_0_5) /\
  (old <= _nSpeedTimeoutMax q -> speed = last) /\
  _fLastSpeed q' = speed /\
  window q' = (0, 0) /\
  _nSpeedTimeoutMax q' = _nSpeedTimeoutMax q /\
  (valid last = true -> is_finite last = true ->
   valid speed = true /\ is_finite speed = true) /\
  (old > _nSpeedTimeoutMax q ->
   valid last = true -> is_finite last = true -> is_zero last = false ->
   fltb (fabs speed) (fabs last) = true) /\
  (old > _nSpeedTimeoutMax q ->
   forall (s : bool) (m : positive) (e : Z),
     last = S754_finite s m e ->
     Zpos (digits2_pos m) = 24 -> -149 < e <= 104 ->
     speed = S754_finite s m (e - 1)).
Proof.
  intros H; cbv zeta. rewrite (getSpeed_idle_eq q H). cbv zeta.
  cbn [fst snd queried _nSpeedTimeoutCount _fLastSpeed window
       _nSpeedAvrTimeSum _nSpeedAvrTimeCount _nSpeedTimeoutMax].
  split; [reflexivity |].
  split; [intros R; apply uint32_exact; unfold uint_range, UINT_MAX in *; lia |].
  destruct (Z.gtb_spec (_nSpeedTimeoutCount q) (_nSpeedTimeoutMax q))
    as [Hgt | Hle].
  - split; [reflexivity |]. split; [lia |].
    split; [reflexivity |]. split; [reflexivity |]. split; [reflexivity |].
    split; [apply fmul_half_valid |].
    split.
    + intros _ Hv Hf Hz. apply fmul_half_lt; assumption.
    + intros _ s m e -> Hd He. apply fmul_half_normal; assumption.
  - split; [lia |]. split; [reflexivity |].
    split; [reflexivity |]. split; [reflexivity |]. split; [reflexivity |].
    split; [intros Hv Hf; split; assumption |].
    split; intros; lia.
Qed.

Lemma getSpeed_idle_witness :
  let q := snd (getSpeed idle_at_TimeoutMax) in
  _nSpeedAvrTimeCount q = 0 /\
  _nSpeedTimeoutCount q > _nSpeedTimeoutMax q /\
  _fLastSpeed q = f_1000 /\
  fst (getSpeed q) = f_500.
Proof.
  cbv zeta. split; [reflexivity |]. split; [reflexivity |].
  split; [reflexivity |].
  destruct (getSpeed_idle (snd (getSpeed idle_at_TimeoutMax)) eq_refl)
    as (_ & _ & H & _).
  rewrite H; reflexivity.
Defined.

(** C3 as stated fails: with the counter at the maximum (10) the
    incremented counter (11) exceeds it, and the last speed 1000 is
    reported unhalved; and an infinite last speed is not decreased. *)
Lemma getSpeed_idle_counterexample :
  (let q := idle_at_TimeoutMax in
   _nSpeedAvrTimeCount q = 0 /\
   _nSpeedTimeoutMax q = 10 /\
   _nSpeedTimeoutCount (snd (getSpeed q)) = 11 /\
   _fLastSpeed q = f_1000 /\
   fmul (_fLastSpeed q) f_0_5 = f_500 /\
   fst (getSpeed q) = f_1000 /\
   fst (getSpeed q) <> fmul (_fLastSpeed q) f_0_5) /\
  (let q := idle_at_infinity in
   _nSpeedAvrTimeCount q = 0 /\
   _nSpeedTimeoutCount q = 12 /\ _nSpeedTimeoutMax q = 10 /\
   _fLastSpeed q = f_inf /\ is_zero (_fLastSpeed q) = false /\
   fst (getSpeed q) = f_inf /\
   fltb (fabs (fst (getSpeed q))) (fabs (_fLastSpeed q)) = false).
Proof.
  split; cbv zeta; repeat split; try reflexivity.
  vm_compute. discriminate.
Qed.

(** C6.  A query that drains a positive count and a sum other than zero
    returns 1000000.0f * speedFactor / ((float) sum / (float) count) in
    binary32 arithmetic and resets the timeout counter.  After the four
    forward steps 00, 01, 11, 10, 00 at 0, 1000, 2000 and 3000 microseconds
    in X4 mode with the factor 1.0 of the constructor, the pulse count is
    4, the window holds sum 3000 and count 3, and a query returns 1000.0f. *)
Theorem getSpeed_moving :
  (forall q : QEI,
      0 < _nSpeedAvrTimeCount q -> _nSpeedAvrTimeSum q <> 0 ->
      fst (getSpeed q) =
      fdiv (fmul f_1000000 (_fSpeedFactor q))
           (fdiv (float_of_int (_nSpeedAvrTimeSum q))
                 (float_of_int (_nSpeedAvrTimeCount q))) /\
      _nSpeedTimeoutCount (snd (getSpeed q)) = 0) /\
  (forall fSpeed0 : float,
      let q := after_four_steps fSpeed0 in
      _encoding q = X4_ENCODING /\ _fSpeedFactor q = f_1 /\
      _pulses q = 4 /\ window q = (1000 + 1000 + 1000, 3) /\
      fst (getSpeed q) = f_1000 /\ f_1000 = float_of_int 1000).
Proof.
  split.
  - intros q Hc Hs. rewrite (getSpeed_moving_eq q Hc Hs). split; reflexivity.
  - intros fSpeed0. cbv zeta. repeat split; reflexivity.
Qed.

Lemma getSpeed_moving_witness :
  let q := after_four_steps f_0 in
  0 < _nSpeedAvrTimeCount q /\ _nSpeedAvrTimeSum q <> 0 /\
  _nSpeedTimeoutCount (snd (getSpeed q)) = 0.
Proof.
  cbv zeta.
  assert (0 < _nSpeedAvrTimeCount (after_four_steps f_0)) as Hc
    by reflexivity.
  assert (_nSpeedAvrTimeSum (after_four_steps f_0) <> 0) as Hs
    by (vm_compute; intro C; discriminate C).
  split; [exact Hc |]. split; [exact Hs |].
  destruct getSpeed_moving as [H _].
  apply (H (after_four_steps f_0) Hc Hs).
Defined.

(** C7, amended.  A query that drains a negative count, or a count other
    than zero together with a sum of zero, reports 0 and resets the timeout
    counter.  The first query after construction is of this kind: it
    returns 0 and the timeout counter stays at the 0 of the constructor. *)
Theorem getSpeed_stopped :
  (forall q : QEI,
      _nSpeedAvrTimeCount q < 0 \/
      (_nSpeedAvrTimeCount q <> 0 /\ _nSpeedAvrTimeSum q = 0) ->
      fst (getSpeed q) = f_0 /\ _nSpeedTimeoutCount (snd (getSpeed q)) = 0) /\
  (forall (chanA chanB : bool) (encoding : Encoding) (fSpeed0 : float),
      let q := QEI_ctor chanA chanB encoding fSpeed0 in
      _nSpeedTimeoutCount q = 0 /\
      fst (getSpeed q) = f_0 /\ _nSpeedTimeoutCount (snd (getSpeed q)) = 0).
Proof.
  split.
  - intros q H.
    rewrite (getSpeed_stopped_eq q); [split; reflexivity | lia | lia].
  - intros chanA chanB encoding fSpeed0. cbv zeta.
    repeat split; reflexivity.
Qed.

Lemma getSpeed_stopped_witness :
  (_nSpeedAvrTimeCount back_and_forth <> 0 /\
   _nSpeedAvrTimeSum back_and_forth = 0) /\
  _pulses back_and_forth = 1 /\
  fst (getSpeed back_and_forth) = f_0.
Proof.
  assert (_nSpeedAvrTimeCount back_and_forth <> 0 /\
          _nSpeedAvrTimeSum back_and_forth = 0) as Hq
    by (split; [vm_compute; intro C; discriminate C | reflexivity]).
  split; [exact Hq |]. split; [reflexivity |].
  destruct getSpeed_stopped as [H _].
  apply (H _ (or_intror Hq)).
Defined.

(** C7 as stated fails: right after a query the sum is 0 (and so is the
    count); the next query reports the last speed 1000 and increments the
    timeout counter. *)
Lemma getSpeed_stopped_counterexample :
  let q := snd (getSpeed (after_four_steps f_0)) in
  _nSpeedAvrTimeSum q = 0 /\
  _nSpeedAvrTimeCount q = 0 /\
  _nSpeedTimeoutCount q = 0 /\
  fst (getSpeed q) = f_1000 /\ fst (getSpeed q) <> f_0 /\
  _nSpeedTimeoutCount (snd (getSpeed q)) = 1.
Proof.
  cbv zeta. repeat split; try reflexivity.
  vm_compute. discriminate.
Qed.

(** ** The count of the window along a run *)

Lemma record_pulse_count (change timer_us : Z) (q : QEI) :
  _nSpeedAvrTimeCount (record_pulse change timer_us q) = 0 \/
  (0 <= _nSpeedAvrTimeCount q /\
   _nSpeedAvrTimeCount (record_pulse change timer_us q)
   = sint32 (_nSpeedAvrTimeCount q + 1)).
Proof.
  destruct (record_pulse_window change timer_us q) as (_ & Hn & H0 & H1).
  unfold window in *.
  destruct (Z_lt_le_dec (_nSpeedAvrTimeCount q) 0) as [Hneg | Hpos].
  - left. specialize (Hn Hneg). congruence.
  - right. split; [exact Hpos |].
    destruct (Z.eq_dec change 0) as [E | E].
    + specialize (H0 Hpos E). congruence.
    + specialize (H1 Hpos E). congruence.
Qed.

Lemma step_count (c : Call) (q : QEI) :
  _nSpeedAvrTimeCount (step c q) = _nSpeedAvrTimeCount q \/
  _nSpeedAvrTimeCount (step c q) = 0 \/
  (0 <= _nSpeedAvrTimeCount q /\
   _nSpeedAvrTimeCount (step c q) = sint32 (_nSpeedAvrTimeCount q + 1)).
Proof.
  destruct c as [chanA chanB timer_us | | | | pulses | f | | f |];
    cbn [step]; try (left; reflexivity).
  - destruct (change_of_cases chanA chanB q) as [H | [H | H]].
    + rewrite (encode_forward _ _ _ _ H). right.
      match goal with
      | |- context [record_pulse ?c ?t ?q1] => exact (record_pulse_count c t q1)
      end.
    + rewrite (encode_backward _ _ _ _ H). right.
      match goal with
      | |- context [record_pulse ?c ?t ?q1] => exact (record_pulse_count c t q1)
      end.
    + rewrite (encode_nochange _ _ _ _ H). left. reflexivity.
  - destruct (getSpeed_queried q) as [timeout ->]. right. left. reflexivity.
Qed.

Lemma started_not_sentinel (count : Z) : started count -> count <> -1.
Proof. unfold started, INT_MAX, INT_MIN. lia. Qed.

Lemma step_started (c : Call) (q : QEI) :
  started (_nSpeedAvrTimeCount q) ->
  started (_nSpeedAvrTimeCount (step c q)).
Proof.
  intros H.
  destruct (step_count c q) as [-> | [-> | [Hpos ->]]].
  - exact H.
  - unfold started, INT_MAX. lia.
  - clear c. unfold started in *. wrap_lia.
Qed.

Lemma run_started (cs : list Call) (q : QEI) :
  started (_nSpeedAvrTimeCount q) ->
  started (_nSpeedAvrTimeCount (run cs q)).
Proof.
  revert q. induction cs as [| c cs IH]; intros q H; cbn [run].
  - exact H.
  - apply IH, step_started, H.
Qed.

(** While fewer than 2^31 calls follow, the count stays non negative. *)
Lemma run_count_bound (cs : list Call) (q : QEI) (k : Z) :
  0 <= _nSpeedAvrTimeCount q <= k ->
  k + Z.of_nat (length cs) <= INT_MAX ->
  0 <= _nSpeedAvrTimeCount (run cs q) <= k + Z.of_nat (length cs).
Proof.
  revert q k. induction cs as [| c cs IH]; intros q k Hq Hk; cbn [run].
  - cbn [length] in *. lia.
  - cbn [length] in Hk |- *. rewrite Nat2Z.inj_succ in *.
    replace (k + Z.succ (Z.of_nat (length cs)))
      with ((k + 1) + Z.of_nat (length cs)) in * by lia.
    apply IH; [| exact Hk].
    destruct (step_count c q) as [-> | [-> | [Hpos ->]]]; try lia.
    rewrite sint32_succ_exact; unfold INT_MIN, INT_MAX in *; lia.
Qed.

(** C8.  Every query leaves the window at sum = 0 and count = 0 and stores
    what it returns as the last speed.  Whatever calls follow, the count is
    never -1 again; it stays non negative while fewer than 2^31 calls
    follow. *)
Theorem getSpeed_drains (q : QEI) :
  let speed := fst (getSpeed q) in
  let q' := snd (getSpeed q) in
  _nSpeedAvrTimeSum q' = 0 /\
  _nSpeedAvrTimeCount q' = 0 /\
  _fLastSpeed q' = speed /\
  (forall cs : list Call, _nSpeedAvrTimeCount (run cs q') <> -1) /\
  (forall cs : list Call,
      Z.of_nat (length cs) <= INT_MAX ->
      0 <= _nSpeedAvrTimeCount (run cs q')).
Proof.
  cbv zeta. destruct (getSpeed_queried q) as [timeout ->].
  split; [reflexivity |]. split; [reflexivity |]. split; [reflexivity |].
  split.
  - intros cs. apply started_not_sentinel, run_started.
    left. cbn. unfold INT_MAX. lia.
  - intros cs Hlen.
    apply (run_count_bound cs (queried q timeout (fst (getSpeed q))) 0).
    + cbn. lia.
    + lia.
Qed.

Lemma getSpeed_drains_witness :
  let q' := snd (getSpeed (after_four_steps f_0)) in
  Z.of_nat (length four_forward_steps) <= INT_MAX /\
  0 <= _nSpeedAvrTimeCount (run four_forward_steps q').
Proof.
  cbv zeta.
  assert (Z.of_nat (length four_forward_steps) <= INT_MAX) as Hlen
    by (vm_compute; intro C; discriminate C).
  split; [exact Hlen |].
  destruct (getSpeed_drains (after_four_steps f_0)) as (_ & _ & _ & _ & H).
  apply (H four_forward_steps Hlen).
Defined.

(** ** Reset, read, write and position *)

(** What [encode] decodes does not depend on the counters. *)
Lemma change_of_reset (chanA chanB : bool) (q : QEI) :
  change_of chanA chanB (reset q) = change_of chanA chanB q.
Proof.
  destruct (_encoding q) eqn:E.
  - rewrite !change_of_X2 by exact E. reflexivity.
  - rewrite !change_of_X4 by exact E. reflexivity.
Qed.

Lemma step_sentinel (c : Call) (q : QEI) :
  int_range (_nSpeedAvrTimeCount q) ->
  _nSpeedAvrTimeCount (step c q) = -1 -> _nSpeedAvrTimeCount q = -1.
Proof.
  intros Hr H.
  destruct (step_count c q) as [E | [E | [Hpos E]]]; rewrite E in H.
  - exact H.
  - discriminate H.
  - exfalso. apply (sint32_succ_not_sentinel (_nSpeedAvrTimeCount q)).
    + unfold int_range in Hr. lia.
    + exact H.
Qed.

(** C9, amended.  [reset] zeroes the pulse count and the revolution count
    and leaves every other member as it was, the window and its count among
    them.  No call makes the count -1: that value comes from the
    constructor only.  So the call of [encode] that follows [reset] treats
    the window as it would have without the [reset]: when the count was
    non negative the delta of the pulse is accumulated, when it was still
    negative (the object is fresh) the delta is dropped. *)
Theorem reset_frame :
  (forall q : QEI,
      reset q =
      mkQEI (_encoding q) (_prevState q) (_currState q) 0 0
            (_fSpeedFactor q) (_fPositionFactor q) (_nSpeedLastTimer q)
            (_nSpeedTimeoutMax q) (_nSpeedTimeoutCount q)
            (_nSpeedAvrTimeSum q) (_nSpeedAvrTimeCount q)
            (_fLastSpeed q) (_fSpeed q)) /\
  (forall (chanA chanB : bool) (encoding : Encoding) (fSpeed0 : float),
      _nSpeedAvrTimeCount (QEI_ctor chanA chanB encoding fSpeed0) = -1) /\
  (forall (c : Call) (q : QEI),
      int_range (_nSpeedAvrTimeCount q) ->
      _nSpeedAvrTimeCount (step c q) = -1 -> _nSpeedAvrTimeCount q = -1) /\
  (forall (q : QEI) (chanA chanB : bool) (timer_us : Z),
      let change := change_of chanA chanB (reset q) in
      let q' := encode chanA chanB timer_us (reset q) in
      let delta := uint32 (uint32 timer_us - _nSpeedLastTimer q) in
      change = change_of chanA chanB q /\
      (0 <= _nSpeedAvrTimeCount q -> change = 0 ->
       window q' = (sint32 (_nSpeedAvrTimeSum q + delta),
                    sint32 (_nSpeedAvrTimeCount q + 1))) /\
      (0 <= _nSpeedAvrTimeCount q -> change = 1 ->
       window q' = (sint32 (_nSpeedAvrTimeSum q - delta),
                    sint32 (_nSpeedAvrTimeCount q + 1))) /\
      (_nSpeedAvrTimeCount q < 0 -> change = 0 \/ change = 1 ->
       window q' = (0, 0))).
Proof.
  split; [reflexivity |].
  split; [reflexivity |].
  split; [exact step_sentinel |].
  intros q chanA chanB timer_us; cbv zeta.
  split; [apply change_of_reset |].
  assert (forall c,
             change_of chanA chanB (reset q) = c -> c = 0 \/ c = 1 ->
             let q' := encode chanA chanB timer_us (reset q) in _)
    as HW
      by (intros c; exact (encode_window_pulse (reset q) chanA chanB timer_us c)).
  cbv zeta in HW.
  change (_nSpeedLastTimer (reset q)) with (_nSpeedLastTimer q) in HW.
  change (_nSpeedAvrTimeCount (reset q)) with (_nSpeedAvrTimeCount q) in HW.
  change (_nSpeedAvrTimeSum (reset q)) with (_nSpeedAvrTimeSum q) in HW.
  split; [| split].
  - intros Hpos H. apply (HW _ H); auto.
  - intros Hpos H. apply (HW _ H); auto. discriminate.
  - intros Hneg [H | H]; apply (HW _ H); auto.
Qed.

Lemma reset_frame_witness :
  let q := reset (after_four_steps f_0) in
  window (encode false true 4000 q) = (4000, 4).
Proof.
  cbv zeta.
  destruct reset_frame as (_ & _ & _ & H).
  destruct (H (after_four_steps f_0) false true 4000) as (_ & H0 & _).
  cbv zeta in H0. rewrite H0.
  - reflexivity.
  - vm_compute. intro C; discriminate C.
  - reflexivity.
Defined.

(** C9 as stated fails on a fresh object: [reset] right after construction
    leaves the count at -1, and the first pulse after it, 1000 microseconds
    later, has its delta dropped: the window is (0, 0), not (1000, _). *)
Lemma reset_frame_counterexample :
  let q := reset (QEI_ctor false false X4_ENCODING f_0) in
  let q' := encode false true 1000 q in
  window q = (0, -1) /\
  change_of false true q = 0 /\ _pulses q' = 1 /\
  uint32 (uint32 1000 - _nSpeedLastTimer q) = 1000 /\
  window q' = (0, 0) /\
  _nSpeedAvrTimeSum q' <> _nSpeedAvrTimeSum q + 1000.
Proof.
  cbv zeta. repeat split; try reflexivity.
  vm_compute. intro C; discriminate C.
Qed.

(** C10.  [read] after [write v] returns v; [write] changes the pulse
    count only, so the revolution count and the window stay.
    [getPosition] returns (float) pulses * positionFactor in binary32
    arithmetic for every factor, and changes nothing; neither does
    [read]. *)
Theorem write_read_getPosition :
  (forall (v : Z) (q : QEI),
      fst (read (write v q)) = v /\
      write v q = set_pulses v q /\
      _revolutions (write v q) = _revolutions q /\
      window (write v q) = window q) /\
  (forall q : QEI, snd (read q) = q) /\
  (forall q : QEI,
      fst (getPosition q)
      = fmul (float_of_int (fst (read q))) (_fPositionFactor q) /\
      snd (getPosition q) = q) /\
  (forall (f : float) (q : QEI),
      fst (getPosition (setPositionFactor f q))
      = fmul (float_of_int (fst (read q))) f) /\
  (let q := after_four_steps f_0 in
   fst (getPosition (setPositionFactor f_0 q)) = f_0 /\
   fst (getPosition (setPositionFactor (SFopp f_0_5) q))
   = float_of_int (-2)).
Proof.
  repeat split; reflexivity.
Qed.


(** * Further properties of the driver *)

(** ** The handler on repeated and on adjacent readings *)

Lemma change_of_same (chanA chanB : bool) (q : QEI) :
  _prevState q = state_of chanA chanB -> change_of chanA chanB q = -1.
Proof.
  intros Hp. destruct (_encoding q) eqn:E.
  - rewrite (change_of_X2 _ _ _ E), Hp.
    destruct chanA, chanB; reflexivity.
  - rewrite (change_of_X4 _ _ _ E), Hp, Z.eqb_refl, andb_false_r.
    reflexivity.
Qed.

Lemma encode_states (q : QEI) (chanA chanB : bool) (timer_us : Z) :
  _prevState (encode chanA chanB timer_us q) = state_of chanA chanB /\
  _currState (encode chanA chanB timer_us q) = state_of chanA chanB.
Proof.
  destruct (change_of_cases chanA chanB q) as [H | [H | H]].
  - rewrite (encode_forward _ _ _ _ H). apply record_pulse_prevState.
  - rewrite (encode_backward _ _ _ _ H). apply record_pulse_prevState.
  - rewrite (encode_nochange _ _ _ _ H). split; reflexivity.
Qed.

(** X1.  A call of the handler that reads the state it read last is without
    effect: a second interrupt for the same edge changes nothing, whatever
    the timer shows, and neither does a call that reads the levels seen by
    the constructor. *)
Theorem encode_repeated :
  (forall (q : QEI) (chanA chanB : bool) (t1 t2 : Z),
      encode chanA chanB t2 (encode chanA chanB t1 q)
      = encode chanA chanB t1 q) /\
  (forall (chanA chanB : bool) (encoding : Encoding) (fSpeed0 : float)
          (timer_us : Z),
      encode chanA chanB timer_us (QEI_ctor chanA chanB encoding fSpeed0)
      = QEI_ctor chanA chanB encoding fSpeed0).
Proof.
  assert (forall q chanA chanB timer_us,
             _prevState q = state_of chanA chanB ->
             _currState q = state_of chanA chanB ->
             encode chanA chanB timer_us q = q) as H.
  { intros q chanA chanB timer_us Hp Hc.
    rewrite (encode_nochange _ _ _ _ (change_of_same _ _ _ Hp)).
    rewrite <- Hp at 1. rewrite <- Hc. destruct q; reflexivity. }
  split.
  - intros q chanA chanB t1 t2.
    destruct (encode_states q chanA chanB t1) as [Hp Hc].
    apply H; assumption.
  - intros. apply H; reflexivity.
Qed.

Lemma sint32_add_l (a b : Z) : sint32 (sint32 a + b) = sint32 (a + b).
Proof. wrap_lia. Qed.

Lemma sint32_succ_pred (p : Z) : int_range p -> sint32 (sint32 (p + 1) - 1) = p.
Proof. intros H. wrap_lia. Qed.

Lemma sint32_pred_succ (p : Z) : int_range p -> sint32 (sint32 (p - 1) + 1) = p.
Proof. intros H. wrap_lia. Qed.

Lemma sint32_mod4 (z : Z) : sint32 z mod 4 = z mod 4.
Proof. wrap_lia. Qed.

Lemma is_state_cases (s : Z) :
  is_state s -> s = 0 \/ s = 1 \/ s = 2 \/ s = 3.
Proof. unfold is_state. lia. Qed.

Lemma state_of_is_state (chanA chanB : bool) : is_state (state_of chanA chanB).
Proof. destruct chanA, chanB; cbv; split; discriminate. Qed.

Lemma state_of_testbit (s : Z) :
  is_state s -> state_of (Z.testbit s 1) (Z.testbit s 0) = s.
Proof.
  intros H. destruct (is_state_cases s H) as [-> | [-> | [-> | ->]]];
    reflexivity.
Qed.

Lemma record_pulse_encoding (change timer_us : Z) (q : QEI) :
  _encoding (record_pulse change timer_us q) = _encoding q /\
  _revolutions (record_pulse change timer_us q) = _revolutions q.
Proof.
  unfold record_pulse; cbn.
  destruct (_ <? 0); [split; reflexivity |].
  destruct (change =? 0); split; reflexivity.
Qed.

Lemma encode_encoding (q : QEI) (chanA chanB : bool) (timer_us : Z) :
  _encoding (encode chanA chanB timer_us q) = _encoding q /\
  _revolutions (encode chanA chanB timer_us q) = _revolutions q.
Proof.
  destruct (change_of_cases chanA chanB q) as [H | [H | H]].
  - rewrite (encode_forward _ _ _ _ H).
    match goal with
    | |- context [record_pulse ?c ?t ?q1] =>
        exact (record_pulse_encoding c t q1)
    end.
  - rewrite (encode_backward _ _ _ _ H).
    match goal with
    | |- context [record_pulse ?c ?t ?q1] =>
        exact (record_pulse_encoding c t q1)
    end.
  - rewrite (encode_nochange _ _ _ _ H). split; reflexivity.
Qed.

(** The pulse count after a call, from the value of [change]. *)
Lemma encode_pulses_value (q : QEI) (chanA chanB : bool) (timer_us : Z) :
  _pulses (encode chanA chanB timer_us q) =
  if change_of chanA chanB q =? 0 then sint32 (_pulses q + 1)
  else if change_of chanA chanB q =? 1 then sint32 (_pulses q - 1)
  else _pulses q.
Proof.
  destruct (change_of_cases chanA chanB q) as [H | [H | H]]; rewrite H.
  - rewrite (encode_forward _ _ _ _ H), record_pulse_pulses. reflexivity.
  - rewrite (encode_backward _ _ _ _ H), record_pulse_pulses. reflexivity.
  - rewrite (encode_nochange _ _ _ _ H). reflexivity.
Qed.

(** In X4 mode [change] tells the place of the new state in the cycle. *)
Lemma change_of_X4_cycle (q : QEI) (chanA chanB : bool) :
  _encoding q = X4_ENCODING -> is_state (_prevState q) ->
  change_of chanA chanB q =
  if state_of chanA chanB =? gray_next (_prevState q) then 0
  else if state_of chanA chanB =? gray_prev (_prevState q) then 1
  else -1.
Proof.
  intros HX4 Hs. rewrite (change_of_X4 _ _ _ HX4).
  destruct (is_state_cases _ Hs) as [-> | [-> | [-> | ->]]];
    destruct chanA, chanB; reflexivity.
Qed.

(** X2.  In X4 mode, from a 2-bit state, the pulse count goes up exactly
    when the new state is the next one in the cycle 00, 01, 11, 10, 00,
    down exactly when it is the one before, and stays exactly when the
    state is the same or both bits have changed. *)
Theorem encode_X4_cycle (q : QEI) (chanA chanB : bool) (timer_us : Z) :
  _encoding q = X4_ENCODING -> is_state (_prevState q) ->
  let previous := _prevState q in
  let current := state_of chanA chanB in
  let q' := encode chanA chanB timer_us q in
  (_pulses q' = sint32 (_pulses q + 1) <-> current = gray_next previous) /\
  (_pulses q' = sint32 (_pulses q - 1) <-> current = gray_prev previous) /\
  (_pulses q' = _pulses q <->
   current = previous \/ Z.lxor previous current = 3).
Proof.
  intros HX4 Hs; cbv zeta.
  pose proof (encode_pulses chanA chanB timer_us q) as (P0 & P1 & PN).
  cbv zeta in P0, P1, PN. rewrite <- P0, <- P1, <- PN. clear P0 P1 PN.
  rewrite (change_of_X4_cycle _ _ _ HX4 Hs). clear HX4.
  destruct (is_state_cases _ Hs) as [-> | [-> | [-> | ->]]]; clear Hs;
    destruct chanA, chanB; cbv; intuition congruence.
Qed.

Lemma encode_X4_cycle_witness :
  let q := QEI_ctor false true X4_ENCODING f_0 in
  _encoding q = X4_ENCODING /\ is_state (_prevState q) /\
  _pulses (encode true true 10 q) = 1.
Proof.
  cbv zeta.
  assert (is_state (_prevState (QEI_ctor false true X4_ENCODING f_0))) as Hs
    by (cbv; split; intro C; discriminate C).
  split; [reflexivity |]. split; [exact Hs |].
  destruct (encode_X4_cycle (QEI_ctor false true X4_ENCODING f_0)
              true true 10 eq_refl Hs) as (H & _).
  apply H. reflexivity.
Defined.

(** X3.  In X4 mode a step to another state that is not a double flip,
    followed by the step back, restores the pulse count. *)
Theorem encode_X4_there_and_back
        (q : QEI) (a0 b0 chanA chanB : bool) (t1 t2 : Z) :
  _encoding q = X4_ENCODING ->
  _prevState q = state_of a0 b0 ->
  Z.lxor (state_of a0 b0) (state_of chanA chanB) <> 3 ->
  int_range (_pulses q) ->
  _pulses (encode a0 b0 t2 (encode chanA chanB t1 q)) = _pulses q.
Proof.
  intros HX4 Hp Hx Hr.
  pose proof (encode_encoding q chanA chanB t1) as [He _].
  pose proof (encode_states q chanA chanB t1) as [Hp1 _].
  rewrite HX4 in He.
  rewrite encode_pulses_value.
  rewrite (change_of_X4_cycle _ _ _ He)
    by (rewrite Hp1; apply state_of_is_state).
  rewrite Hp1, encode_pulses_value.
  rewrite (change_of_X4_cycle _ _ _ HX4)
    by (rewrite Hp; apply state_of_is_state).
  rewrite Hp. clear HX4 Hp He Hp1.
  pose proof (sint32_succ_pred _ Hr) as R1.
  pose proof (sint32_pred_succ _ Hr) as R2.
  destruct a0, b0, chanA, chanB; cbn in Hx |- *;
    try reflexivity; try assumption; exfalso; apply Hx; reflexivity.
Qed.

Lemma encode_X4_there_and_back_witness :
  let q := QEI_ctor false false X4_ENCODING f_0 in
  _pulses (encode false true 10 q) = 1 /\
  _pulses (encode false false 20 (encode false true 10 q)) = 0.
Proof.
  cbv zeta. split; [reflexivity |].
  apply (encode_X4_there_and_back (QEI_ctor false false X4_ENCODING f_0)
           false false false true 10 20).
  - reflexivity.
  - reflexivity.
  - vm_compute. intro C; discriminate C.
  - vm_compute. split; intro C; discriminate C.
Defined.

(** ** The pulse count along a run of the handler *)

Lemma encode_X4_phase (q : QEI) (chanA chanB : bool) (timer_us : Z) :
  _encoding q = X4_ENCODING -> is_state (_prevState q) ->
  Z.lxor (_prevState q) (state_of chanA chanB) <> 3 ->
  (_pulses (encode chanA chanB timer_us q)
   - gray_index (state_of chanA chanB)) mod 4
  = (_pulses q - gray_index (_prevState q)) mod 4.
Proof.
  intros HX4 Hs Hx.
  rewrite encode_pulses_value, (change_of_X4_cycle _ _ _ HX4 Hs).
  clear HX4. revert Hx.
  generalize (sint32_mod4 (_pulses q + 1)), (sint32_mod4 (_pulses q - 1)).
  generalize (sint32 (_pulses q + 1)), (sint32 (_pulses q - 1)), (_pulses q).
  intros u d p Hu Hd.
  destruct (is_state_cases _ Hs) as [-> | [-> | [-> | ->]]]; clear Hs;
    destruct chanA, chanB; cbn; intros Hx;
    try (exfalso; apply Hx; reflexivity); clear Hx;
    Z.div_mod_to_equations; lia.
Qed.

Lemma run_X4_phase (rs : list (bool * bool * Z)) (q : QEI) :
  _encoding q = X4_ENCODING -> is_state (_prevState q) ->
  no_double_flip (_prevState q) rs = true ->
  (_pulses (run (encode_calls rs) q)
   - gray_index (_prevState (run (encode_calls rs) q))) mod 4
  = (_pulses q - gray_index (_prevState q)) mod 4.
Proof.
  revert q.
  induction rs as [| [[chanA chanB] timer_us] rs IH]; intros q HX4 Hs Hn.
  - reflexivity.
  - cbn [encode_calls map run step fst snd] in *.
    cbn [no_double_flip fst snd] in Hn.
    apply andb_true_iff in Hn. destruct Hn as [Hx Hn].
    apply negb_true_iff, Z.eqb_neq in Hx.
    pose proof (encode_states q chanA chanB timer_us) as [Hp _].
    pose proof (encode_encoding q chanA chanB timer_us) as [He _].
    fold (encode_calls rs).
    rewrite IH.
    + rewrite Hp. apply encode_X4_phase; assumption.
    + rewrite He. exact HX4.
    + rewrite Hp. apply state_of_is_state.
    + rewrite Hp. exact Hn.
Qed.

(** X4.  In X4 mode, along calls of the handler none of which sees a double
    flip, the pulse count stays in step with the state: the count minus the
    place of the state in the cycle 00, 01, 11, 10 is the same modulo 4
    before and after. *)
Theorem encode_X4_phase_lock (rs : list (bool * bool * Z)) (q : QEI) :
  _encoding q = X4_ENCODING -> is_state (_prevState q) ->
  no_double_flip (_prevState q) rs = true ->
  let q' := run (encode_calls rs) q in
  (_pulses q' - gray_index (_prevState q')) mod 4
  = (_pulses q - gray_index (_prevState q)) mod 4.
Proof.
  intros HX4 Hs Hn; cbv zeta. apply run_X4_phase; assumption.
Qed.

Lemma encode_X4_phase_lock_witness :
  let q := QEI_ctor false false X4_ENCODING f_0 in
  let rs := [(false, true, 0); (true, true, 5); (true, true, 6);
             (false, true, 9); (false, false, 12); (true, false, 20)] in
  no_double_flip (_prevState q) rs = true /\
  (_pulses (run (encode_calls rs) q)
   - gray_index (_prevState (run (encode_calls rs) q))) mod 4 = 0.
Proof.
  cbv zeta. split; [reflexivity |].
  rewrite (encode_X4_phase_lock
             [(false, true, 0); (true, true, 5); (true, true, 6);
              (false, true, 9); (false, false, 12); (true, false, 20)]
             (QEI_ctor false false X4_ENCODING f_0)).
  - reflexivity.
  - reflexivity.
  - cbv. split; intro C; discriminate C.
  - reflexivity.
Defined.

Lemma gray_next_is_state (s : Z) : is_state (gray_next s).
Proof.
  unfold gray_next, is_state.
  destruct (s =? 0); [lia |]. destruct (s =? 1); [lia |].
  destruct (s =? 3); lia.
Qed.

Lemma gray_prev_is_state (s : Z) : is_state (gray_prev s).
Proof.
  unfold gray_prev, is_state.
  destruct (s =? 0); [lia |]. destruct (s =? 2); [lia |].
  destruct (s =? 3); lia.
Qed.

Lemma step_read_next (q : QEI) (timer_us : Z) :
  _encoding q = X4_ENCODING -> is_state (_prevState q) ->
  let q' := step (read_state (gray_next (_prevState q)) timer_us) q in
  _encoding q' = X4_ENCODING /\
  _prevState q' = gray_next (_prevState q) /\
  _pulses q' = sint32 (_pulses q + 1).
Proof.
  intros HX4 Hs. cbv zeta. unfold read_state. cbn [step].
  pose proof (state_of_testbit _ (gray_next_is_state (_prevState q))) as E.
  split; [| split].
  - rewrite (proj1 (encode_encoding _ _ _ _)). exact HX4.
  - rewrite (proj1 (encode_states _ _ _ _)). exact E.
  - rewrite encode_pulses_value, (change_of_X4_cycle _ _ _ HX4 Hs), E.
    rewrite Z.eqb_refl. reflexivity.
Qed.

Lemma step_read_prev (q : QEI) (timer_us : Z) :
  _encoding q = X4_ENCODING -> is_state (_prevState q) ->
  let q' := step (read_state (gray_prev (_prevState q)) timer_us) q in
  _encoding q' = X4_ENCODING /\
  _prevState q' = gray_prev (_prevState q) /\
  _pulses q' = sint32 (_pulses q - 1).
Proof.
  intros HX4 Hs. cbv zeta. unfold read_state. cbn [step].
  pose proof (state_of_testbit _ (gray_prev_is_state (_prevState q))) as E.
  split; [| split].
  - rewrite (proj1 (encode_encoding _ _ _ _)). exact HX4.
  - rewrite (proj1 (encode_states _ _ _ _)). exact E.
  - rewrite encode_pulses_value, (change_of_X4_cycle _ _ _ HX4 Hs), E.
    destruct (is_state_cases _ Hs) as [-> | [-> | [-> | ->]]]; reflexivity.
Qed.

Lemma run_forward_path (ts : list Z) (q : QEI) :
  _encoding q = X4_ENCODING -> is_state (_prevState q) ->
  int_range (_pulses q) ->
  _pulses (run (forward_path (_prevState q) ts) q)
  = sint32 (_pulses q + Z.of_nat (length ts)) /\
  _prevState (run (forward_path (_prevState q) ts) q)
  = Nat.iter (length ts) gray_next (_prevState q).
Proof.
  revert q. induction ts as [| t ts IH]; intros q HX4 Hs Hr.
  - cbn. split; [| reflexivity].
    rewrite Z.add_0_r. symmetry. apply sint32_exact, Hr.
  - cbn [forward_path run length].
    pose proof (step_read_next q t HX4 Hs) as H. cbv zeta in H.
    remember (step (read_state (gray_next (_prevState q)) t) q) as q1.
    destruct H as (He & Hp & Hc).
    rewrite Nat.iter_succ_r.
    destruct (IH q1 He) as [I1 I2].
    + rewrite Hp. apply gray_next_is_state.
    + rewrite Hc. apply sint32_range.
    + rewrite Hp in I1, I2.
      rewrite I1, I2, Hc, sint32_add_l, Nat2Z.inj_succ.
      split; [f_equal; lia | reflexivity].
Qed.

Lemma run_backward_path (ts : list Z) (q : QEI) :
  _encoding q = X4_ENCODING -> is_state (_prevState q) ->
  int_range (_pulses q) ->
  _pulses (run (backward_path (_prevState q) ts) q)
  = sint32 (_pulses q - Z.of_nat (length ts)) /\
  _prevState (run (backward_path (_prevState q) ts) q)
  = Nat.iter (length ts) gray_prev (_prevState q).
Proof.
  revert q. induction ts as [| t ts IH]; intros q HX4 Hs Hr.
  - cbn. split; [| reflexivity].
    rewrite Z.sub_0_r. symmetry. apply sint32_exact, Hr.
  - cbn [backward_path run length].
    pose proof (step_read_prev q t HX4 Hs) as H. cbv zeta in H.
    remember (step (read_state (gray_prev (_prevState q)) t) q) as q1.
    destruct H as (He & Hp & Hc).
    rewrite Nat.iter_succ_r.
    destruct (IH q1 He) as [I1 I2].
    + rewrite Hp. apply gray_prev_is_state.
    + rewrite Hc. apply sint32_range.
    + rewrite Hp in I1, I2.
      rewrite I1, I2, Hc, Nat2Z.inj_succ.
      replace (sint32 (_pulses q - 1) - Z.of_nat (length ts))
        with (sint32 (_pulses q - 1) + - Z.of_nat (length ts)) by lia.
      rewrite sint32_add_l.
      split; [f_equal; lia | reflexivity].
Qed.

(** X5.  In X4 mode n steps along the cycle 00, 01, 11, 10, 00 from any
    2-bit state raise the pulse count by n, and n steps against it lower
    the count by n ([int] arithmetic; exactly so within the range); the
    timestamps do not matter. *)
Theorem encode_X4_paths (ts : list Z) (q : QEI) :
  _encoding q = X4_ENCODING -> is_state (_prevState q) ->
  int_range (_pulses q) ->
  let n := Z.of_nat (length ts) in
  let up := run (forward_path (_prevState q) ts) q in
  let down := run (backward_path (_prevState q) ts) q in
  _pulses up = sint32 (_pulses q + n) /\
  _pulses down = sint32 (_pulses q - n) /\
  (_pulses q + n <= INT_MAX -> _pulses up = _pulses q + n) /\
  (INT_MIN <= _pulses q - n -> _pulses down = _pulses q - n) /\
  _prevState up = Nat.iter (length ts) gray_next (_prevState q) /\
  _prevState down = Nat.iter (length ts) gray_prev (_prevState q).
Proof.
  intros HX4 Hs Hr; cbv zeta.
  destruct (run_forward_path ts q HX4 Hs Hr) as [Up1 Up2].
  destruct (run_backward_path ts q HX4 Hs Hr) as [Dn1 Dn2].
  split; [exact Up1 |]. split; [exact Dn1 |].
  split; [| split; [| split; [exact Up2 | exact Dn2]]].
  - intros Hb. rewrite Up1. apply sint32_exact.
    unfold int_range, INT_MIN, INT_MAX in *. lia.
  - intros Hb. rewrite Dn1. apply sint32_exact.
    unfold int_range, INT_MIN, INT_MAX in *. lia.
Qed.

Lemma encode_X4_paths_witness :
  let q := QEI_ctor true true X4_ENCODING f_0 in
  _pulses (run (forward_path (_prevState q) [0; 10; 20; 30]) q) = 4 /\
  _prevState (run (forward_path (_prevState q) [0; 10; 20; 30]) q) = 3.
Proof.
  cbv zeta.
  destruct (encode_X4_paths [0; 10; 20; 30]
              (QEI_ctor true true X4_ENCODING f_0))
    as (_ & _ & H & _ & P & _).
  - reflexivity.
  - cbv. split; intro C; discriminate C.
  - cbv. split; intro C; discriminate C.
  - split; [apply H; cbv; intro C; discriminate C | exact P].
Defined.

(** ** The handler in X2 mode *)

Lemma X2_round_up (q : QEI) (t1 t2 : Z) :
  _encoding q = X2_ENCODING -> _prevState q = 3 ->
  let q' := encode true true t2 (encode false false t1 q) in
  _encoding q' = X2_ENCODING /\ _prevState q' = 3 /\
  _pulses q' = sint32 (_pulses q + 1).
Proof.
  intros HX2 Hp; cbv zeta.
  pose proof (encode_encoding q false false t1) as [He _].
  pose proof (encode_states q false false t1) as [Hp1 _].
  rewrite HX2 in He.
  split; [rewrite (proj1 (encode_encoding _ _ _ _)); exact He |].
  split; [apply encode_states |].
  rewrite encode_pulses_value, (change_of_X2 _ _ _ He), Hp1.
  rewrite encode_pulses_value, (change_of_X2 _ _ _ HX2), Hp.
  reflexivity.
Qed.

Lemma X2_round_down (q : QEI) (t1 t2 : Z) :
  _encoding q = X2_ENCODING -> _prevState q = 2 ->
  let q' := encode true false t2 (encode false true t1 q) in
  _encoding q' = X2_ENCODING /\ _prevState q' = 2 /\
  _pulses q' = sint32 (_pulses q - 2).
Proof.
  intros HX2 Hp; cbv zeta.
  pose proof (encode_encoding q false true t1) as [He _].
  pose proof (encode_states q false true t1) as [Hp1 _].
  rewrite HX2 in He.
  split; [rewrite (proj1 (encode_encoding _ _ _ _)); exact He |].
  split; [apply encode_states |].
  rewrite encode_pulses_value, (change_of_X2 _ _ _ He), Hp1.
  rewrite encode_pulses_value, (change_of_X2 _ _ _ HX2), Hp.
  cbn. replace (sint32 (_pulses q - 1) - 1)
    with (sint32 (_pulses q - 1) + -1) by lia.
  rewrite sint32_add_l. f_equal. lia.
Qed.

Lemma run_X2_up (n : nat) (q : QEI) (t1 t2 : Z) :
  _encoding q = X2_ENCODING -> _prevState q = 3 -> int_range (_pulses q) ->
  let q' :=
    run (alternate n (CallEncode false false t1) (CallEncode true true t2)) q in
  _prevState q' = 3 /\ _pulses q' = sint32 (_pulses q + Z.of_nat n).
Proof.
  cbv zeta. revert q. induction n as [| n IH]; intros q HX2 Hp Hr.
  - cbn. split; [exact Hp |].
    rewrite Z.add_0_r. symmetry. apply sint32_exact, Hr.
  - cbn [alternate run step].
    destruct (X2_round_up q t1 t2 HX2 Hp) as (He & Hp2 & Hc).
    cbv zeta in He, Hp2, Hc.
    destruct (IH _ He Hp2) as [I1 I2].
    + rewrite Hc. apply sint32_range.
    + split; [exact I1 |].
      rewrite I2, Hc, sint32_add_l, Nat2Z.inj_succ. f_equal. lia.
Qed.

Lemma run_X2_down (n : nat) (q : QEI) (t1 t2 : Z) :
  _encoding q = X2_ENCODING -> _prevState q = 2 -> int_range (_pulses q) ->
  let q' :=
    run (alternate n (CallEncode false true t1) (CallEncode true false t2)) q in
  _prevState q' = 2 /\ _pulses q' = sint32 (_pulses q - 2 * Z.of_nat n).
Proof.
  cbv zeta. revert q. induction n as [| n IH]; intros q HX2 Hp Hr.
  - cbn. split; [exact Hp |].
    rewrite Z.sub_0_r. symmetry. apply sint32_exact, Hr.
  - cbn [alternate run step].
    destruct (X2_round_down q t1 t2 HX2 Hp) as (He & Hp2 & Hc).
    cbv zeta in He, Hp2, Hc.
    destruct (IH _ He Hp2) as [I1 I2].
    + rewrite Hc. apply sint32_range.
    + split; [exact I1 |].
      rewrite I2, Hc, Nat2Z.inj_succ.
      replace (sint32 (_pulses q - 2) - 2 * Z.of_nat n)
        with (sint32 (_pulses q - 2) + - (2 * Z.of_nat n)) by lia.
      rewrite sint32_add_l. f_equal. lia.
Qed.

(** X6.  In X2 mode the two alternations of the comment above
    [QEI::encode] are counted differently.  From state 11, n rounds of
    11 -> 00 -> 11 raise the pulse count by n: only the step 11 -> 00 is
    counted.  From state 10, n rounds of 10 -> 01 -> 10 lower it by 2n:
    both steps are counted. *)
Theorem encode_X2_alternations (n : nat) (q : QEI) (t1 t2 : Z) :
  _encoding q = X2_ENCODING -> int_range (_pulses q) ->
  let up :=
    run (alternate n (CallEncode false false t1) (CallEncode true true t2)) q in
  let down :=
    run (alternate n (CallEncode false true t1) (CallEncode true false t2)) q in
  (_prevState q = 3 ->
   _prevState up = 3 /\
   _pulses up = sint32 (_pulses q + Z.of_nat n) /\
   (_pulses q + Z.of_nat n <= INT_MAX ->
    _pulses up = _pulses q + Z.of_nat n)) /\
  (_prevState q = 2 ->
   _prevState down = 2 /\
   _pulses down = sint32 (_pulses q - 2 * Z.of_nat n) /\
   (INT_MIN <= _pulses q - 2 * Z.of_nat n ->
    _pulses down = _pulses q - 2 * Z.of_nat n)).
Proof.
  intros HX2 Hr; cbv zeta. split; intros Hp.
  - destruct (run_X2_up n q t1 t2 HX2 Hp Hr) as [H1 H2].
    split; [exact H1 |]. split; [exact H2 |].
    intros Hb. rewrite H2. apply sint32_exact.
    unfold int_range, INT_MIN, INT_MAX in *. lia.
  - destruct (run_X2_down n q t1 t2 HX2 Hp Hr) as [H1 H2].
    split; [exact H1 |]. split; [exact H2 |].
    intros Hb. rewrite H2. apply sint32_exact.
    unfold int_range, INT_MIN, INT_MAX in *. lia.
Qed.

Lemma encode_X2_alternations_witness :
  _pulses (run (alternate 3 (CallEncode false false 0) (CallEncode true true 5))
               (QEI_ctor true true X2_ENCODING f_0)) = 3 /\
  _pulses (run (alternate 3 (CallEncode false true 0) (CallEncode true false 5))
               (QEI_ctor true false X2_ENCODING f_0)) = -6.
Proof.
  assert (forall a b, int_range (_pulses (QEI_ctor a b X2_ENCODING f_0))) as R
    by (intros; cbv; split; intro C; discriminate C).
  split.
  - destruct (encode_X2_alternations 3 (QEI_ctor true true X2_ENCODING f_0)
                0 5 eq_refl (R true true)) as [H _].
    destruct (H eq_refl) as (_ & _ & E).
    apply E. cbv. intro C; discriminate C.
  - destruct (encode_X2_alternations 3 (QEI_ctor true false X2_ENCODING f_0)
                0 5 eq_refl (R true false)) as [_ H].
    destruct (H eq_refl) as (_ & _ & E).
    apply E. cbv. intro C; discriminate C.
Defined.

(** X7.  In X2 mode a call of the handler that finds channel A at the level
    it had in the previous state counts nothing, whatever channel B shows:
    pulse count, window and last timestamp stay. *)
Theorem encode_X2_needs_A (q : QEI) (chanA chanB : bool) (timer_us : Z) :
  _encoding q = X2_ENCODING -> is_state (_prevState q) ->
  Z.testbit (_prevState q) 1 = chanA ->
  let q' := encode chanA chanB timer_us q in
  _pulses q' = _pulses q /\ window q' = window q /\
  _nSpeedLastTimer q' = _nSpeedLastTimer q.
Proof.
  intros HX2 Hs HA; cbv zeta.
  assert (change_of chanA chanB q = -1) as H.
  { rewrite (change_of_X2 _ _ _ HX2). subst chanA.
    destruct (is_state_cases _ Hs) as [-> | [-> | [-> | ->]]];
      destruct chanB; reflexivity. }
  rewrite (encode_nochange _ _ _ _ H). repeat split.
Qed.

Lemma encode_X2_needs_A_witness :
  let q := QEI_ctor true false X2_ENCODING f_0 in
  Z.testbit (_prevState q) 1 = true /\
  _pulses (encode true true 7 q) = 0.
Proof.
  cbv zeta. split; [reflexivity |].
  destruct (encode_X2_needs_A (QEI_ctor true false X2_ENCODING f_0)
              true true 7 eq_refl) as (H & _).
  - cbv. split; intro C; discriminate C.
  - reflexivity.
  - exact H.
Defined.

(** ** The revolution count *)

Lemma step_revolutions (c : Call) (q : QEI) :
  _revolutions (step c q) =
  match c with
  | CallIndex => sint32 (_revolutions q + 1)
  | CallReset => 0
  | _ => _revolutions q
  end.
Proof.
  destruct c; cbn [step]; try reflexivity.
  - apply encode_encoding.
  - destruct (getSpeed_queried q) as [timeout ->]. reflexivity.
Qed.

Lemma index_count_shape (cs : list Call) :
  (exists k, forall r, index_count cs r = r + k) \/
  (exists k, forall r, index_count cs r = k).
Proof.
  induction cs as [| c cs IH].
  - left. exists 0. intros r. cbn. lia.
  - destruct IH as [[k Hk] | [k Hk]].
    + destruct c; cbn [index_count];
        try (left; exists k; intros r; apply Hk).
      * left. exists (1 + k). intros r. rewrite Hk. lia.
      * right. exists (0 + k). intros r. apply Hk.
    + right. exists k. intros r. destruct c; cbn [index_count]; apply Hk.
Qed.

Lemma index_count_wrap (cs : list Call) (r : Z) :
  sint32 (index_count cs (sint32 r)) = sint32 (index_count cs r).
Proof.
  destruct (index_count_shape cs) as [[k Hk] | [k Hk]]; rewrite !Hk.
  - apply sint32_add_l.
  - reflexivity.
Qed.

(** X8.  Along any run the revolution count is the number of index pulses
    since the last [reset] (or, if there was none, since the start, on top
    of the count then), in [int] arithmetic: the index handler adds one,
    [reset] zeroes, and no other call touches it. *)
Theorem index_revolutions (cs : list Call) (q : QEI) :
  int_range (_revolutions q) ->
  _revolutions (run cs q) = sint32 (index_count cs (_revolutions q)) /\
  (int_range (index_count cs (_revolutions q)) ->
   _revolutions (run cs q) = index_count cs (_revolutions q)).
Proof.
  intros Hr.
  assert (_revolutions (run cs q) = sint32 (index_count cs (_revolutions q)))
    as H.
  { revert q Hr. induction cs as [| c cs IH]; intros q Hr.
    - cbn. symmetry. apply sint32_exact, Hr.
    - cbn [run]. rewrite IH, step_revolutions.
      + destruct c; cbn [index_count]; try reflexivity.
        apply index_count_wrap.
      + rewrite step_revolutions. destruct c; try exact Hr.
        * apply sint32_range.
        * cbv. split; intro C; discriminate C. }
  split; [exact H |].
  intros Hb. rewrite H. apply sint32_exact, Hb.
Qed.

Lemma index_revolutions_witness :
  let q := QEI_ctor false false X4_ENCODING f_0 in
  _revolutions
    (run [CallIndex; CallEncode false true 3; CallIndex; CallReset;
          CallIndex; CallGetSpeed; CallIndex; CallWrite 9; CallIndex] q) = 3.
Proof.
  cbv zeta.
  destruct (index_revolutions
              [CallIndex; CallEncode false true 3; CallIndex; CallReset;
               CallIndex; CallGetSpeed; CallIndex; CallWrite 9; CallIndex]
              (QEI_ctor false false X4_ENCODING f_0)) as [_ H].
  - cbv. split; intro C; discriminate C.
  - apply H. cbv. split; intro C; discriminate C.
Defined.

Lemma encode_set_revolutions (r : Z) (q : QEI) (chanA chanB : bool) (t : Z) :
  encode chanA chanB t (set_revolutions r q)
  = set_revolutions r (encode chanA chanB t q).
Proof.
  assert (change_of chanA chanB (set_revolutions r q)
          = change_of chanA chanB q) as Hc.
  { destruct (_encoding q) eqn:E.
    - rewrite !change_of_X2 by exact E. reflexivity.
    - rewrite !change_of_X4 by exact E. reflexivity. }
  destruct (change_of_cases chanA chanB q) as [H | [H | H]];
    pose proof H as H'; rewrite <- Hc in H'.
  - rewrite (encode_forward _ _ _ _ H), (encode_forward _ _ _ _ H').
    unfold record_pulse. cbn.
    destruct (_ <? 0); reflexivity.
  - rewrite (encode_backward _ _ _ _ H), (encode_backward _ _ _ _ H').
    unfold record_pulse. cbn.
    destruct (_ <? 0); reflexivity.
  - rewrite (encode_nochange _ _ _ _ H), (encode_nochange _ _ _ _ H').
    reflexivity.
Qed.

Lemma getSpeed_set_revolutions (r : Z) (q : QEI) :
  getSpeed (set_revolutions r q)
  = (fst (getSpeed q), set_revolutions r (snd (getSpeed q))).
Proof.
  unfold getSpeed. cbn.
  destruct (_ =? 0).
  - destruct (_ >? _); reflexivity.
  - destruct (_ || _); reflexivity.
Qed.

(** X9.  The index handler commutes with every call but [reset]: it makes
    no difference on which side of a channel interrupt or of a call from
    the application the index interrupt is served. *)
Theorem index_commutes (c : Call) (q : QEI) :
  c <> CallReset -> step c (index q) = index (step c q).
Proof.
  intros Hc. unfold index. rewrite step_revolutions.
  destruct c; cbn [step]; try reflexivity.
  - apply encode_set_revolutions.
  - contradiction.
  - rewrite getSpeed_set_revolutions. reflexivity.
Qed.

Lemma index_commutes_witness :
  let q := after_four_steps f_0 in
  step CallGetSpeed (index q) = index (step CallGetSpeed q).
Proof.
  cbv zeta. apply index_commutes. intro C; discriminate C.
Defined.


(** ** Position and speed do not disturb each other *)

Lemma change_of_states (q1 q2 : QEI) (chanA chanB : bool) :
  _encoding q1 = _encoding q2 -> _prevState q1 = _prevState q2 ->
  change_of chanA chanB q1 = change_of chanA chanB q2.
Proof.
  intros He Hp. destruct (_encoding q2) eqn:E.
  - rewrite !change_of_X2 by congruence. rewrite Hp. reflexivity.
  - rewrite !change_of_X4 by congruence. rewrite Hp. reflexivity.
Qed.

Lemma encode_position (q : QEI) (chanA chanB : bool) (timer_us : Z) :
  position (encode chanA chanB timer_us q) =
  (_encoding q, state_of chanA chanB, state_of chanA chanB,
   (if change_of chanA chanB q =? 0 then sint32 (_pulses q + 1)
    else if change_of chanA chanB q =? 1 then sint32 (_pulses q - 1)
    else _pulses q),
   _revolutions q).
Proof.
  unfold position.
  rewrite encode_pulses_value.
  rewrite (proj1 (encode_encoding _ _ _ _)), (proj2 (encode_encoding _ _ _ _)).
  rewrite (proj1 (encode_states _ _ _ _)), (proj2 (encode_states _ _ _ _)).
  reflexivity.
Qed.

Lemma step_position_ext (c : Call) (q1 q2 : QEI) :
  position q1 = position q2 -> position (step c q1) = position (step c q2).
Proof.
  intros H. pose proof H as H0. unfold position in H0.
  injection H0 as He Hp Hc Hn Hr.
  destruct c; cbn [step].
  - rewrite !encode_position.
    rewrite (change_of_states q1 q2 _ _ He Hp), He, Hn, Hr. reflexivity.
  - unfold position, index; cbn. congruence.
  - unfold position, reset; cbn. congruence.
  - exact H.
  - unfold position, write; cbn. congruence.
  - exact H.
  - destruct (getSpeed_queried q1) as [t1 ->].
    destruct (getSpeed_queried q2) as [t2 ->]. exact H.
  - exact H.
  - exact H.
Qed.

Lemma run_position_ext (cs : list Call) (q1 q2 : QEI) :
  position q1 = position q2 -> position (run cs q1) = position (run cs q2).
Proof.
  revert q1 q2. induction cs as [| c cs IH]; intros q1 q2 H; cbn [run].
  - exact H.
  - apply IH, step_position_ext, H.
Qed.

Lemma step_position_idle (c : Call) (q : QEI) :
  position_call c = false -> position (step c q) = position q.
Proof.
  destruct c; cbn [position_call step]; intros H; try discriminate H;
    try reflexivity.
  destruct (getSpeed_queried q) as [timeout ->]. reflexivity.
Qed.

(** X10.  The speed side never disturbs the position: the encoding, the
    two states, the pulse count and the revolution count after a run are
    those of the run without its speed queries, its setters of the factors
    and its reads. *)
Theorem position_unaffected (cs : list Call) (q : QEI) :
  position (run cs q) = position (run (filter position_call cs) q).
Proof.
  revert q. induction cs as [| c cs IH]; intros q; cbn [run filter].
  - reflexivity.
  - destruct (position_call c) eqn:E; cbn [run].
    + apply IH.
    + rewrite <- IH. apply run_position_ext, step_position_idle, E.
Qed.

Lemma getSpeed_speed_ext (q1 q2 : QEI) :
  speed_state q1 = speed_state q2 ->
  fst (getSpeed q1) = fst (getSpeed q2) /\
  speed_state (snd (getSpeed q1)) = speed_state (snd (getSpeed q2)).
Proof.
  intros H. unfold speed_state, window in H.
  injection H as He Hp Hc Hf Hl Hm Ht Hs Hn Hv Hw.
  unfold getSpeed, speed_state, window. cbn.
  rewrite Hn, Hs, Ht, Hm, Hv, Hf.
  destruct (_ =? 0).
  - destruct (_ >? _); cbn; split; congruence.
  - destruct (_ || _); cbn; split; congruence.
Qed.

Lemma encode_speed_ext (q1 q2 : QEI) (chanA chanB : bool) (timer_us : Z) :
  speed_state q1 = speed_state q2 ->
  speed_state (encode chanA chanB timer_us q1)
  = speed_state (encode chanA chanB timer_us q2).
Proof.
  intros H. unfold speed_state, window in H.
  injection H as He Hp Hc Hf Hl Hm Ht Hs Hn Hv Hw.
  pose proof (change_of_states q1 q2 chanA chanB He Hp) as HC.
  destruct (change_of_cases chanA chanB q2) as [H | [H | H]];
    pose proof H as H'; rewrite <- HC in H'.
  - rewrite (encode_forward _ _ _ _ H), (encode_forward _ _ _ _ H').
    unfold record_pulse, speed_state, window. cbn.
    rewrite Hn, Hs, Hl. destruct (_ <? 0); cbn; congruence.
  - rewrite (encode_backward _ _ _ _ H), (encode_backward _ _ _ _ H').
    unfold record_pulse, speed_state, window. cbn.
    rewrite Hn, Hs, Hl. destruct (_ <? 0); cbn; congruence.
  - rewrite (encode_nochange _ _ _ _ H), (encode_nochange _ _ _ _ H').
    unfold speed_state, window. cbn. congruence.
Qed.

Lemma step_speed_ext (c : Call) (q1 q2 : QEI) :
  speed_state q1 = speed_state q2 ->
  speed_state (step c q1) = speed_state (step c q2).
Proof.
  intros H. destruct c; cbn [step]; try exact H.
  - apply encode_speed_ext, H.
  - unfold speed_state, window in *. cbn.
    injection H as He Hp Hc Hf Hl Hm Ht Hs Hn Hv Hw. congruence.
  - apply getSpeed_speed_ext, H.
Qed.

Lemma run_speed_ext (cs : list Call) (q1 q2 : QEI) :
  speed_state q1 = speed_state q2 ->
  speed_state (run cs q1) = speed_state (run cs q2).
Proof.
  revert q1 q2. induction cs as [| c cs IH]; intros q1 q2 H; cbn [run].
  - exact H.
  - apply IH, step_speed_ext, H.
Qed.

Lemma step_speed_idle (c : Call) (q : QEI) :
  speed_call c = false -> speed_state (step c q) = speed_state q.
Proof.
  destruct c; cbn [speed_call step]; intros H; try discriminate H;
    reflexivity.
Qed.

(** X11.  The position side never disturbs the speed estimate: the window,
    the last timestamp, the timeout counter and the last speed after a run
    are those of the run without its calls of [index], [reset], [write],
    [read], [setPositionFactor] and [getPosition]; so a query after either
    run returns the same speed. *)
Theorem speed_unaffected (cs : list Call) (q : QEI) :
  speed_state (run cs q) = speed_state (run (filter speed_call cs) q) /\
  fst (getSpeed (run cs q))
  = fst (getSpeed (run (filter speed_call cs) q)).
Proof.
  assert (speed_state (run cs q)
          = speed_state (run (filter speed_call cs) q)) as H.
  { revert q. induction cs as [| c cs IH]; intros q; cbn [run filter].
    - reflexivity.
    - destruct (speed_call c) eqn:E; cbn [run].
      + apply IH.
      + rewrite <- IH. apply run_speed_ext, step_speed_idle, E. }
  split; [exact H |]. apply getSpeed_speed_ext, H.
Qed.

(** X12.  No call changes the encoding or the maximum of the timeout
    counter: along every run from the constructor the encoding is the one
    given to it and the maximum is 10. *)
Theorem constants_kept (cs : list Call) :
  (forall q : QEI,
      _encoding (run cs q) = _encoding q /\
      _nSpeedTimeoutMax (run cs q) = _nSpeedTimeoutMax q) /\
  (forall (chanA chanB : bool) (encoding : Encoding) (fSpeed0 : float),
      let q := run cs (QEI_ctor chanA chanB encoding fSpeed0) in
      _encoding q = encoding /\ _nSpeedTimeoutMax q = 10).
Proof.
  assert (forall q : QEI,
             _encoding (run cs q) = _encoding q /\
             _nSpeedTimeoutMax (run cs q) = _nSpeedTimeoutMax q) as H.
  { intros q.
    revert q. induction cs as [| c cs IH]; intros q; cbn [run].
    - split; reflexivity.
    - destruct (IH (step c q)) as [-> ->].
      destruct c; cbn [step]; try (split; reflexivity).
      + destruct (change_of_cases chanA chanB q) as [H | [H | H]].
        * rewrite (encode_forward _ _ _ _ H). unfold record_pulse. cbn.
          destruct (_ <? 0); split; reflexivity.
        * rewrite (encode_backward _ _ _ _ H). unfold record_pulse. cbn.
          destruct (_ <? 0); split; reflexivity.
        * rewrite (encode_nochange _ _ _ _ H). split; reflexivity.
      + destruct (getSpeed_queried q) as [timeout ->]. split; reflexivity. }
  split; [exact H |].
  intros chanA chanB encoding fSpeed0. cbv zeta.
  destruct (H (QEI_ctor chanA chanB encoding fSpeed0)) as [-> ->].
  split; reflexivity.
Qed.

(** ** Timestamps that wrap *)




(** ** Queries while no pulse arrives *)

Lemma idle_queries_succ (n : nat) :
  idle_queries (S n) = CallGetSpeed :: idle_queries n.
Proof. reflexivity. Qed.

Lemma run_idle_hold (n : nat) (q : QEI) :
  _nSpeedAvrTimeCount q = 0 -> 0 <= _nSpeedTimeoutCount q ->
  _nSpeedTimeoutCount q + Z.of_nat n <= _nSpeedTimeoutMax q + 1 ->
  _nSpeedTimeoutMax q < UINT_MAX ->
  let q' := run (idle_queries n) q in
  _fLastSpeed q' = _fLastSpeed q /\
  _nSpeedTimeoutCount q' = _nSpeedTimeoutCount q + Z.of_nat n /\
  _nSpeedAvrTimeCount q' = 0 /\
  _nSpeedTimeoutMax q' = _nSpeedTimeoutMax q.
Proof.
  cbv zeta. revert q. induction n as [| n IH]; intros q Hc Ht Hn Hm.
  - cbn. repeat split; lia.
  - rewrite idle_queries_succ. cbn [run step].
    rewrite (getSpeed_idle_eq q Hc). cbv zeta. cbn [snd].
    rewrite Nat2Z.inj_succ in *.
    destruct (Z.gtb_spec (_nSpeedTimeoutCount q) (_nSpeedTimeoutMax q))
      as [Hgt | Hle]; [lia |].
    rewrite (uint32_exact (_nSpeedTimeoutCount q + 1))
      by (unfold uint_range, UINT_MAX in *; lia).
    match goal with
    | |- context [run _ ?q1] => destruct (IH q1) as (I1 & I2 & I3 & I4)
    end; cbn [queried _nSpeedAvrTimeCount _nSpeedTimeoutCount
              _nSpeedTimeoutMax _fLastSpeed] in *; try lia.
    repeat split; try assumption. lia.
Qed.

(** X14.  While no pulse arrives the last speed is held for a while: with
    the timeout counter at c and the maximum at M, the queries that find
    the counter at most M (the next M + 1 - c of them) all return the last
    speed unchanged, and the first query that finds it at M + 1 returns
    the last speed times 0.5f.  After a query that reset the counter and
    with the maximum 10 of the constructor that is the twelfth query. *)
Theorem getSpeed_hold (n : nat) (q : QEI) :
  _nSpeedAvrTimeCount q = 0 -> 0 <= _nSpeedTimeoutCount q ->
  _nSpeedTimeoutCount q + Z.of_nat n <= _nSpeedTimeoutMax q + 1 ->
  _nSpeedTimeoutMax q < UINT_MAX ->
  let q' := run (idle_queries n) q in
  _fLastSpeed q' = _fLastSpeed q /\
  _nSpeedTimeoutCount q' = _nSpeedTimeoutCount q + Z.of_nat n /\
  (_nSpeedTimeoutCount q + Z.of_nat n <= _nSpeedTimeoutMax q ->
   fst (getSpeed q') = _fLastSpeed q) /\
  (_nSpeedTimeoutCount q + Z.of_nat n = _nSpeedTimeoutMax q + 1 ->
   fst (getSpeed q') = fmul (_fLastSpeed q) f_0_5).
Proof.
  intros Hc Ht Hn Hm; cbv zeta.
  destruct (run_idle_hold n q Hc Ht Hn Hm) as (I1 & I2 & I3 & I4).
  cbv zeta in I1, I2, I3, I4.
  split; [exact I1 |]. split; [exact I2 |].
  rewrite (getSpeed_idle_eq _ I3). cbv zeta. cbn [fst].
  rewrite I1, I2, I4.
  split; intros H.
  - destruct (Z.gtb_spec (_nSpeedTimeoutCount q + Z.of_nat n)
                         (_nSpeedTimeoutMax q)); [lia | reflexivity].
  - destruct (Z.gtb_spec (_nSpeedTimeoutCount q + Z.of_nat n)
                         (_nSpeedTimeoutMax q)); [reflexivity | lia].
Qed.

Lemma getSpeed_hold_witness :
  let q := snd (getSpeed (after_four_steps f_0)) in
  fst (getSpeed (run (idle_queries 10) q)) = f_1000 /\
  fst (getSpeed (run (idle_queries 11) q)) = f_500.
Proof.
  cbv zeta.
  assert (forall n, (n <= 11)%nat ->
                    _nSpeedTimeoutCount (snd (getSpeed (after_four_steps f_0)))
                    + Z.of_nat n
                    <= _nSpeedTimeoutMax (snd (getSpeed (after_four_steps f_0)))
                       + 1) as B.
  { intros n Hn.
    change (_nSpeedTimeoutCount (snd (getSpeed (after_four_steps f_0))))
      with 0.
    change (_nSpeedTimeoutMax (snd (getSpeed (after_four_steps f_0))))
      with 10.
    lia. }
  split.
  - destruct (getSpeed_hold 10 (snd (getSpeed (after_four_steps f_0))))
      as (_ & _ & H & _).
    + reflexivity.
    + cbv. intro C; discriminate C.
    + apply B. lia.
    + reflexivity.
    + apply H. cbv. intro C; discriminate C.
  - destruct (getSpeed_hold 11 (snd (getSpeed (after_four_steps f_0))))
      as (_ & _ & _ & H).
    + reflexivity.
    + cbv. intro C; discriminate C.
    + apply B. lia.
    + reflexivity.
    + rewrite H; reflexivity.
Defined.

(** ** Repeated halving *)

Lemma halve_zero (s : bool) : halve (S754_zero s) = S754_zero s.
Proof. destruct s; reflexivity. Qed.

Lemma iter_halve_zero (n : nat) (s : bool) :
  Nat.iter n halve (S754_zero s) = S754_zero s.
Proof.
  induction n as [| n IH]; [reflexivity |].
  rewrite Nat.iter_succ, IH. apply halve_zero.
Qed.

Lemma is_zero_inv (x : float) :
  is_zero x = true -> exists s, x = S754_zero s.
Proof. destruct x; cbn; intros H; try discriminate H. eexists; reflexivity. Qed.

Lemma iter_halve_normal (k : nat) (s : bool) (m : positive) (e : Z) :
  Zpos (digits2_pos m) = 24 -> e <= 104 -> -149 <= e - Z.of_nat k ->
  Nat.iter k halve (S754_finite s m e) = S754_finite s m (e - Z.of_nat k).
Proof.
  intros Hd He. induction k as [| k IH]; intros Hk.
  - cbn. f_equal. lia.
  - rewrite Nat.iter_succ, Nat2Z.inj_succ in *.
    rewrite IH by lia. unfold halve.
    rewrite fmul_half_normal by (assumption || lia).
    f_equal. lia.
Qed.

Lemma valid_min_exp_digits (s : bool) (m : positive) :
  valid (S754_finite s m (-149)) = true -> Zpos (digits2_pos m) <= 24.
Proof.
  unfold valid, valid_binary, bounded, canonical_mantissa.
  intros H. apply andb_true_iff in H. destruct H as [H _].
  apply Z.eqb_eq in H. unfold fexp, emin, prec, emax in H. lia.
Qed.

Lemma halve_min_exp_shrink (s : bool) (m : positive) (j : nat) :
  valid (S754_finite s m (-149)) = true ->
  Zpos m <= 2 ^ Z.of_nat (S j) ->
  halve (S754_finite s m (-149)) = S754_zero s \/
  exists m', halve (S754_finite s m (-149)) = S754_finite s m' (-149) /\
             Zpos m' <= 2 ^ Z.of_nat j.
Proof.
  intros Hv Hb. unfold halve.
  rewrite (fmul_half_min_exp s m (valid_min_exp_digits s m Hv)).
  rewrite Nat2Z.inj_succ, Z.pow_succ_r in Hb by lia.
  remember (2 ^ Z.of_nat j) as P.
  destruct m as [p | p |]; cbn [half_min_exp].
  - right. eexists. split; [reflexivity |].
    destruct (Z.even (Zpos p)); rewrite ?Pos2Z.inj_succ; lia.
  - right. exists p. split; [reflexivity | lia].
  - left. reflexivity.
Qed.

Lemma iter_halve_min_exp (j : nat) (s : bool) (m : positive) :
  valid (S754_finite s m (-149)) = true ->
  Zpos m <= 2 ^ Z.of_nat j ->
  is_zero (Nat.iter (S j) halve (S754_finite s m (-149))) = true.
Proof.
  revert m. induction j as [| j IH]; intros m Hv Hb.
  - cbn in Hb. assert (m = 1%positive) as -> by lia. reflexivity.
  - rewrite Nat.iter_succ_r.
    destruct (halve_min_exp_shrink s m j Hv Hb) as [-> | (m' & E & Hb')].
    + rewrite iter_halve_zero. reflexivity.
    + pose proof (fmul_half_valid (S754_finite s m (-149)) Hv eq_refl)
        as [Hv' _].
      fold (halve (S754_finite s m (-149))) in Hv'. rewrite E in *.
      apply IH; assumption.
Qed.

Lemma digits2_pos_bound (m : positive) : Zpos m < 2 ^ Zpos (digits2_pos m).
Proof.
  induction m as [p IH | p IH |]; cbn [digits2_pos];
    rewrite ?Pos2Z.inj_succ, ?Z.pow_succ_r by lia; lia.
Qed.

Lemma mantissa_bound (m : positive) :
  Zpos (digits2_pos m) <= 24 -> Zpos m <= 2 ^ Z.of_nat 24.
Proof.
  intros H. pose proof (digits2_pos_bound m) as B.
  assert (2 ^ Zpos (digits2_pos m) <= 2 ^ 24)
    by (apply Z.pow_le_mono_r; lia).
  change (Z.of_nat 24) with 24. lia.
Qed.

(** At most 278 halvings take a finite binary32 value to zero: 253 to reach
    the least exponent, 25 to shift the mantissa out. *)
Lemma iter_halve_to_zero (n : nat) (x : float) :
  valid x = true -> is_finite x = true -> (278 <= n)%nat ->
  is_zero (Nat.iter n halve x) = true.
Proof.
  intros Hv Hf Hn.
  destruct x as [s | s | | s m e]; try discriminate Hf.
  - rewrite iter_halve_zero. reflexivity.
  - pose proof Hv as Hv0.
    unfold valid, valid_binary, bounded, canonical_mantissa in Hv0.
    apply andb_true_iff in Hv0. destruct Hv0 as [Hc He].
    apply Z.eqb_eq in Hc. apply Z.leb_le in He.
    unfold fexp, emin, prec, emax in Hc, He.
    assert (Zpos (digits2_pos m) <= 24) as Hd by lia.
    assert (e = -149 \/ (Zpos (digits2_pos m) = 24 /\ -149 < e <= 104))
      as [-> | [Hd24 Hr]] by lia.
    + replace n with ((n - 25) + 25)%nat by lia.
      rewrite Nat.iter_add.
      destruct (is_zero_inv _ (iter_halve_min_exp 24 s m Hv
                                 (mantissa_bound m Hd))) as [s' ->].
      rewrite iter_halve_zero. reflexivity.
    + set (k := Z.to_nat (e + 149)).
      replace n with ((n - 25 - k) + (25 + k))%nat by lia.
      rewrite !Nat.iter_add.
      rewrite (iter_halve_normal k s m e Hd24) by lia.
      replace (e - Z.of_nat k) with (-149) by lia.
      assert (valid (S754_finite s m (-149)) = true) as Hv'.
      { unfold valid, valid_binary, bounded, canonical_mantissa.
        apply andb_true_iff. split; [| reflexivity].
        apply Z.eqb_eq. unfold fexp, emin, prec, emax. lia. }
      destruct (is_zero_inv _ (iter_halve_min_exp 24 s m Hv'
                                 (mantissa_bound m Hd))) as [s' ->].
      rewrite iter_halve_zero. reflexivity.
Qed.

Lemma run_idle_halving (n : nat) (q : QEI) :
  _nSpeedAvrTimeCount q = 0 ->
  _nSpeedTimeoutMax q < _nSpeedTimeoutCount q -> 0 <= _nSpeedTimeoutCount q ->
  _nSpeedTimeoutCount q + Z.of_nat n <= UINT_MAX ->
  let q' := run (idle_queries n) q in
  _fLastSpeed q' = Nat.iter n halve (_fLastSpeed q) /\
  _nSpeedAvrTimeCount q' = 0 /\
  _nSpeedTimeoutCount q' = _nSpeedTimeoutCount q + Z.of_nat n /\
  _nSpeedTimeoutMax q' = _nSpeedTimeoutMax q.
Proof.
  cbv zeta. revert q. induction n as [| n IH]; intros q Hc Hm Ht Hn.
  - cbn. repeat split; lia.
  - rewrite idle_queries_succ, Nat.iter_succ_r. cbn [run step].
    rewrite (getSpeed_idle_eq q Hc). cbv zeta. cbn [snd].
    rewrite Nat2Z.inj_succ in *.
    destruct (Z.gtb_spec (_nSpeedTimeoutCount q) (_nSpeedTimeoutMax q))
      as [Hgt | Hle]; [| lia].
    rewrite (uint32_exact (_nSpeedTimeoutCount q + 1))
      by (unfold uint_range, UINT_MAX in *; lia).
    match goal with
    | |- context [run _ ?q1] => destruct (IH q1) as (I1 & I2 & I3 & I4)
    end; cbn [queried _nSpeedAvrTimeCount _nSpeedTimeoutCount
              _nSpeedTimeoutMax _fLastSpeed] in *; try lia.
    repeat split; try assumption. lia.
Qed.

(** X15.  Once the timeout counter is above its maximum, queries with no
    pulse between them take every finite last speed to zero: after 277 of
    them every further one reports +0 or -0 (as long as the counter does
    not wrap), each query returning the last speed halved once more. *)
Theorem getSpeed_decays_to_zero (n : nat) (q : QEI) :
  _nSpeedAvrTimeCount q = 0 ->
  _nSpeedTimeoutMax q < _nSpeedTimeoutCount q -> 0 <= _nSpeedTimeoutCount q ->
  _nSpeedTimeoutCount q + Z.of_nat n <= UINT_MAX ->
  valid (_fLastSpeed q) = true -> is_finite (_fLastSpeed q) = true ->
  fst (getSpeed (run (idle_queries n) q))
  = Nat.iter (S n) halve (_fLastSpeed q) /\
  ((277 <= n)%nat ->
   is_zero (fst (getSpeed (run (idle_queries n) q))) = true).
Proof.
  intros Hc Hm Ht Hu Hv Hf.
  destruct (run_idle_halving n q Hc Hm Ht Hu) as (I1 & I2 & I3 & I4).
  cbv zeta in I1, I2, I3, I4.
  assert (fst (getSpeed (run (idle_queries n) q))
          = Nat.iter (S n) halve (_fLastSpeed q)) as E.
  { rewrite (getSpeed_idle_eq _ I2). cbv zeta. cbn [fst].
    rewrite I1, I3, I4, Nat.iter_succ.
    destruct (Z.gtb_spec (_nSpeedTimeoutCount q + Z.of_nat n)
                         (_nSpeedTimeoutMax q)); [reflexivity | lia]. }
  split; [exact E |].
  intros Hn. rewrite E. apply iter_halve_to_zero; try assumption. lia.
Qed.

Lemma getSpeed_decays_to_zero_witness :
  let q := snd (getSpeed idle_at_TimeoutMax) in
  _fLastSpeed q = f_1000 /\
  is_zero (fst (getSpeed (run (idle_queries 277) q))) = true.
Proof.
  cbv zeta. split; [reflexivity |].
  destruct (getSpeed_decays_to_zero
              277 (snd (getSpeed idle_at_TimeoutMax))) as [_ H].
  - reflexivity.
  - reflexivity.
  - cbv. intro C; discriminate C.
  - cbv. intro C; discriminate C.
  - reflexivity.
  - reflexivity.
  - apply H, le_n.
Defined.

(** ** Direction and the sign of the speed *)

Lemma binary_round_aux_opp (s : bool) (m e : Z) (l : location) :
  binary_round_aux prec emax (negb s) m e l
  = SFopp (binary_round_aux prec emax s m e l).
Proof.
  unfold binary_round_aux.
  destruct (shr_fexp prec emax m e l) as [mrs' e'].
  destruct (shr_fexp prec emax _ e' loc_Exact) as [mrs'' e''].
  destruct (shr_m mrs''); try reflexivity.
  destruct (e'' <=? emax - prec); reflexivity.
Qed.

Lemma SFopp_involutive (x : float) : SFopp (SFopp x) = x.
Proof. destruct x as [[] | [] | | [] m e]; reflexivity. Qed.

Lemma float_of_int_opp (n : Z) :
  n <> 0 -> float_of_int (- n) = SFopp (float_of_int n).
Proof.
  intros Hn. unfold float_of_int, binary_normalize, binary_round.
  destruct n as [| p | p]; [contradiction | |]; cbn [Z.opp];
    destruct (shl_align _ _ _) as [mz ez].
  - apply (binary_round_aux_opp false).
  - rewrite (binary_round_aux_opp false). cbn [negb].
    symmetry. apply SFopp_involutive.
Qed.










(** ** The position in single precision *)

Lemma digits2_pos_lower (p : positive) :
  2 ^ (Zpos (digits2_pos p) - 1) <= Zpos p.
Proof.
  induction p as [p IH | p IH |]; cbn [digits2_pos];
    rewrite ?Pos2Z.inj_succ;
    try (replace (Z.succ (Zpos (digits2_pos p)) - 1)
           with (Z.succ (Zpos (digits2_pos p) - 1)) by lia;
         rewrite Z.pow_succ_r by lia; lia).
  cbn. lia.
Qed.

Lemma digits2_pos_le_24 (p : positive) :
  Zpos p < 2 ^ 24 -> Zpos (digits2_pos p) <= 24.
Proof.
  intros H. pose proof (digits2_pos_lower p) as L.
  destruct (Z_le_gt_dec (Zpos (digits2_pos p)) 24) as [Hd | Hd]; [exact Hd |].
  assert (2 ^ 24 <= 2 ^ (Zpos (digits2_pos p) - 1))
    by (apply Z.pow_le_mono_r; lia).
  lia.
Qed.

Lemma iter_xO_spec (k p : positive) :
  Zpos (Pos.iter xO p k) = Zpos p * 2 ^ Zpos k /\
  Zpos (digits2_pos (Pos.iter xO p k)) = Zpos (digits2_pos p) + Zpos k.
Proof.
  induction k as [| k IH] using Pos.peano_ind.
  - cbn [Pos.iter digits2_pos]. rewrite Pos2Z.inj_succ. split; lia.
  - rewrite Pos.iter_succ. destruct IH as [I1 I2].
    cbn [digits2_pos]. rewrite !Pos2Z.inj_succ, Z.pow_succ_r by lia.
    rewrite Pos2Z.inj_xO, I1, I2. split; lia.
Qed.

(** A mantissa of 24 bits within the exponent range is not rounded. *)
Lemma round_exact (s : bool) (m : positive) (e : Z) :
  Zpos (digits2_pos m) = 24 -> -149 <= e <= 104 ->
  binary_round_aux prec emax s (Zpos m) e loc_Exact = S754_finite s m e.
Proof.
  intros Hd He. unfold binary_round_aux, shr_fexp.
  change (Zdigits2 (Zpos m)) with (Zpos (digits2_pos m)). rewrite Hd.
  replace (fexp prec emax (24 + e) - e) with 0
    by (unfold fexp, emin, prec, emax; lia).
  cbn [shr shr_record_of_loc shr_m loc_of_shr_record round_nearest_even].
  change (Zdigits2 (Zpos m)) with (Zpos (digits2_pos m)). rewrite Hd.
  replace (fexp prec emax (24 + e) - e) with 0
    by (unfold fexp, emin, prec, emax; lia).
  cbn [shr shr_record_of_loc shr_m].
  destruct (Z.leb_spec e (emax - prec)) as [_ | H]; [reflexivity |].
  unfold emax, prec in H. lia.
Qed.

(** The conversion of a positive integer below 2^24 is exact. *)
Lemma float_of_int_pos (p : positive) :
  Zpos p < 2 ^ 24 ->
  exists (m : positive) (e : Z),
    float_of_int (Zpos p) = S754_finite false m e /\
    Zpos (digits2_pos m) = 24 /\ -23 <= e <= 0 /\
    Zpos m = Zpos p * 2 ^ (- e).
Proof.
  intros Hp. pose proof (digits2_pos_le_24 p Hp) as Hd.
  assert (0 < Zpos (digits2_pos p)) as Hd0 by lia.
  unfold float_of_int, binary_normalize, binary_round, shl_align.
  replace (fexp prec emax (Zpos (digits2_pos p) + 0))
    with (Zpos (digits2_pos p) - 24)
    by (unfold fexp, emin, prec, emax; lia).
  rewrite Z.sub_0_r.
  destruct (Zpos (digits2_pos p) - 24) as [| k | k] eqn:E; [| lia |].
  - exists p, 0. rewrite round_exact by lia.
    repeat split; try lia.
  - destruct (iter_xO_spec k p) as [I1 I2].
    exists (Pos.iter xO p k), (Zneg k).
    rewrite round_exact by lia.
    repeat split; try lia. rewrite I1. reflexivity.
Qed.

(** A normal value times 1.0 is itself. *)
Lemma fmul_one_normal (s : bool) (m : positive) (e : Z) :
  Zpos (digits2_pos m) = 24 -> -149 <= e <= 104 ->
  fmul (S754_finite s m e) f_1 = S754_finite s m e.
Proof.
  intros Hd He.
  unfold fmul, f_1, SFmul. rewrite xorb_false_r, Pos.mul_comm.
  unfold binary_round_aux, shr_fexp.
  change (Zdigits2 (Z.pos (8388608 * m)))
    with (Z.pos (digits2_pos (8388608 * m))).
  rewrite digits2_times_2p23, Hd.
  replace (fexp prec emax (24 + 23 + (e + -23)) - (e + -23)) with 23
    by (unfold fexp, emin, prec, emax; lia).
  cbn [Pos.mul shr_record_of_loc shr iter_pos shr_1 orb].
  cbn [shr_m loc_of_shr_record round_nearest_even].
  unfold Zdigits2. rewrite Hd.
  replace (fexp prec emax (24 + (e + -23 + 23)) - (e + -23 + 23)) with 0
    by (unfold fexp, emin, prec, emax; lia).
  cbn [shr shr_record_of_loc shr_m].
  replace (e + -23 + 23) with e by lia.
  destruct (Z.leb_spec e (emax - prec)) as [_ | H]; [reflexivity |].
  unfold emax, prec in H. lia.
Qed.

Lemma float_to_Z_scaled (s : bool) (m : positive) (e n : Z) :
  e <= 0 -> Zpos m = n * 2 ^ (- e) ->
  float_to_Z (S754_finite s m e) = Some (cond_Zopp s n).
Proof.
  intros He Hm. unfold float_to_Z.
  assert (0 < 2 ^ (- e)) as Hpow by (apply Z.pow_pos_nonneg; lia).
  destruct (Z.leb_spec 0 e) as [H0 | H0].
  - assert (e = 0) as -> by lia. cbn in Hm |- *.
    rewrite Pos.mul_1_r. f_equal. f_equal. lia.
  - rewrite Hm, Z.mod_mul, Z.eqb_refl, Z.div_mul by lia. reflexivity.
Qed.

(** X18.  With the position factor 1.0 of the constructor the position is
    exact for pulse counts of magnitude below 2^24: the returned float
    stands for the pulse count itself.  Beyond that single precision
    rounds: at 2^24 + 1 pulses the position returned is 2^24. *)
Theorem getPosition_exact :
  (forall q : QEI,
      _fPositionFactor q = f_1 ->
      - 2 ^ 24 < _pulses q < 2 ^ 24 ->
      float_to_Z (fst (getPosition q)) = Some (_pulses q)) /\
  (forall (chanA chanB : bool) (encoding : Encoding) (fSpeed0 : float),
      let q := write 16777217 (QEI_ctor chanA chanB encoding fSpeed0) in
      float_to_Z (fst (getPosition q)) = Some 16777216).
Proof.
  split.
  - intros q Hf Hp. unfold getPosition. cbn [fst]. rewrite Hf.
    destruct (_pulses q) as [| p | p] eqn:E.
    + reflexivity.
    + destruct (float_of_int_pos p) as (m & e & F & Hd & He & Hm); [lia |].
      rewrite F, fmul_one_normal by (assumption || lia).
      apply (float_to_Z_scaled false); [lia | exact Hm].
    + destruct (float_of_int_pos p) as (m & e & F & Hd & He & Hm); [lia |].
      change (Zneg p) with (- Zpos p).
      rewrite float_of_int_opp by discriminate.
      rewrite F. cbn [SFopp negb].
      rewrite fmul_one_normal by (assumption || lia).
      apply (float_to_Z_scaled true m e (Zpos p)); [lia | exact Hm].
  - intros. reflexivity.
Qed.

Lemma getPosition_exact_witness :
  float_to_Z (fst (getPosition (after_four_steps f_0))) = Some 4.
Proof.
  destruct getPosition_exact as [H _].
  apply (H (after_four_steps f_0)).
  - reflexivity.
  - cbv. split; reflexivity.
Defined.

(** ** The speed factor *)

(** X17.  The speed factor is not applied to a speed already computed: a
    query that drains no usable sample (count 0, count negative or sum 0)
    returns the same value whatever factor was set before it; the factor
    enters only where a query computes a speed from the window. *)
Theorem setSpeedFactor_later_only (f : float) (q : QEI) :
  (_nSpeedAvrTimeCount q <= 0 \/ _nSpeedAvrTimeSum q = 0 ->
   fst (getSpeed (setSpeedFactor f q)) = fst (getSpeed q)) /\
  (0 < _nSpeedAvrTimeCount q -> _nSpeedAvrTimeSum q <> 0 ->
   fst (getSpeed (setSpeedFactor f q))
   = fdiv (fmul f_1000000 f)
          (fdiv (float_of_int (_nSpeedAvrTimeSum q))
                (float_of_int (_nSpeedAvrTimeCount q)))) /\
  _fLastSpeed (setSpeedFactor f q) = _fLastSpeed q.
Proof.
  split; [| split; [| reflexivity]].
  - intros H.
    destruct (Z.eq_dec (_nSpeedAvrTimeCount q) 0) as [H0 | Hnz].
    + rewrite (getSpeed_idle_eq q H0), (getSpeed_idle_eq (setSpeedFactor f q) H0).
      reflexivity.
    + rewrite (getSpeed_stopped_eq q Hnz) by lia.
      rewrite (getSpeed_stopped_eq (setSpeedFactor f q) Hnz)
        by (cbn; lia).
      reflexivity.
  - intros Hc Hs.
    rewrite (getSpeed_moving_eq (setSpeedFactor f q) Hc Hs). reflexivity.
Qed.

Lemma setSpeedFactor_later_only_witness :
  let q := snd (getSpeed (after_four_steps f_0)) in
  fst (getSpeed (setSpeedFactor f_max q)) = f_1000.
Proof.
  cbv zeta.
  destruct (setSpeedFactor_later_only
              f_max (snd (getSpeed (after_four_steps f_0)))) as [H _].
  rewrite H; [reflexivity |].
  left. cbv. intro C; discriminate C.
Defined.

(** ** The window over a run of steps *)






(** ** A double flip *)

Lemma encode_X4_flip_phase (q : QEI) (chanA chanB : bool) (timer_us : Z) :
  _encoding q = X4_ENCODING -> is_state (_prevState q) ->
  Z.lxor (_prevState q) (state_of chanA chanB) = 3 ->
  _pulses (encode chanA chanB timer_us q) = _pulses q /\
  (_pulses q - gray_index (state_of chanA chanB)) mod 4
  = (_pulses q - gray_index (_prevState q) + 2) mod 4.
Proof.
  intros HX4 Hs Hx.
  rewrite encode_pulses_value, (change_of_X4_cycle _ _ _ HX4 Hs).
  clear HX4. revert Hx. generalize (_pulses q). intros p.
  destruct (is_state_cases _ Hs) as [-> | [-> | [-> | ->]]]; clear Hs;
    destruct chanA, chanB; cbn; intros Hx; try discriminate Hx; clear Hx;
    (split; [reflexivity | Z.div_mod_to_equations; lia]).
Qed.

(** X20.  A double flip is not made up for later.  In X4 mode a call that
    finds both bits changed leaves the pulse count alone, which puts the
    count two places (modulo 4) out of step with the state, and calls
    without a further double flip keep it there. *)
Theorem encode_X4_double_flip
        (rs : list (bool * bool * Z)) (q : QEI)
        (chanA chanB : bool) (timer_us : Z) :
  _encoding q = X4_ENCODING -> is_state (_prevState q) ->
  Z.lxor (_prevState q) (state_of chanA chanB) = 3 ->
  no_double_flip (state_of chanA chanB) rs = true ->
  let q' := run (encode_calls ((chanA, chanB, timer_us) :: rs)) q in
  _pulses (encode chanA chanB timer_us q) = _pulses q /\
  (_pulses q' - gray_index (_prevState q')) mod 4
  = (_pulses q - gray_index (_prevState q) + 2) mod 4.
Proof.
  intros HX4 Hs Hx Hn; cbv zeta.
  destruct (encode_X4_flip_phase q chanA chanB timer_us HX4 Hs Hx) as [P F].
  split; [exact P |].
  cbn [encode_calls map run step fst snd]. fold (encode_calls rs).
  pose proof (encode_states q chanA chanB timer_us) as [Hp _].
  pose proof (encode_encoding q chanA chanB timer_us) as [He _].
  rewrite run_X4_phase.
  - rewrite Hp, P. exact F.
  - rewrite He. exact HX4.
  - rewrite Hp. apply state_of_is_state.
  - rewrite Hp. exact Hn.
Qed.

Lemma encode_X4_double_flip_witness :
  let q := QEI_ctor false false X4_ENCODING f_0 in
  let q' := run (encode_calls [(true, true, 1); (true, false, 2);
                               (false, false, 3)]) q in
  _pulses q' = 2 /\ _prevState q' = _prevState q /\
  (_pulses q' - gray_index (_prevState q')) mod 4 = 2.
Proof.
  cbv zeta. split; [reflexivity |]. split; [reflexivity |].
  destruct (encode_X4_double_flip
              [(true, false, 2); (false, false, 3)]
              (QEI_ctor false false X4_ENCODING f_0) true true 1)
    as [_ H].
  - reflexivity.
  - cbv. split; intro C; discriminate C.
  - reflexivity.
  - reflexivity.
  - rewrite H. reflexivity.
Defined.
